(** * NN Insurance MCP server: the recommendation engine and the extractors

    A shallow embedding of [src/index.ts]: the rule-based recommendation
    engine ([recommendPolicy], [calculateEstimatedPremium]) and the two
    cheerio-based extractors that carry logic ([extractText],
    [getRGFPolicyInfo]), with the properties the specification states
    about them.

    Conventions of the embedding.
    - A JavaScript string is the list of its UTF-16 code units
      ([jsstring]); [===] on strings is equality of these lists and
      [.length] is the length of the list.
    - Numbers come in two readings.  The first part carries a number as
      the rational it denotes and computes exactly; it serves the
      properties that depend on which branch runs, on the order of
      values or on sums of small integers, where binary64 computes the
      same.  The module [Binary64] models the Number type itself, with
      its rounding, its infinities and [NaN] and the way a number is
      printed; the properties about the values the arithmetic produces
      are stated there.
    - An optional field ([age?: number]) is an [option]; [None] is
      [undefined]. *)

From Stdlib Require Import ZArith NArith QArith Qround Qminmax Qabs Qpower Qcanon.
From Stdlib Require Import List String Ascii Bool Lia Lqa.
From Stdlib Require Import Numbers.DecimalString.
Import ListNotations.

Open Scope string_scope.
Open Scope list_scope.
Open Scope Q_scope.

(** ** JavaScript strings *)

Definition jsstring : Type := list N.

Module JS.

(** An ASCII literal of the source, as code units. *)
Definition lit (s : String.string) : jsstring :=
  List.map N_of_ascii (list_ascii_of_string s).

(** [a === b] on two strings. *)
Fixpoint eqb (a b : jsstring) : bool :=
  match a, b with
  | [], [] => true
  | x :: a', y :: b' => N.eqb x y && eqb a' b'
  | _, _ => false
  end.

(** [s.length] *)
Definition length (s : jsstring) : Z := Z.of_nat (List.length s).

(** The code units [String.prototype.trim] strips: ECMAScript's
    WhiteSpace and LineTerminator productions. *)
Definition isWhiteSpace (c : N) : bool :=
  ((9 <=? c) && (c <=? 13) || (c =? 32) || (c =? 160) || (c =? 5760)
   || (8192 <=? c) && (c <=? 8202) || (c =? 8232) || (c =? 8233)
   || (c =? 8239) || (c =? 8287) || (c =? 12288) || (c =? 65279))%N.

Fixpoint trimStart (s : jsstring) : jsstring :=
  match s with
  | c :: s' => if isWhiteSpace c then trimStart s' else s
  | [] => []
  end.

Definition trimEnd (s : jsstring) : jsstring := rev (trimStart (rev s)).

(** [s.trim()] *)
Definition trim (s : jsstring) : jsstring := trimEnd (trimStart s).

(** [s.substring(0, n)] for a literal [n >= 0]. *)
Definition substring0 (n : Z) (s : jsstring) : jsstring := firstn (Z.to_nat n) s.

(** [pieces.join(sep)] *)
Fixpoint join (sep : jsstring) (pieces : list jsstring) : jsstring :=
  match pieces with
  | [] => []
  | [piece] => piece
  | piece :: rest => piece ++ sep ++ join sep rest
  end.

(** A string in a boolean position: the empty string is falsy. *)
Definition truthyString (s : jsstring) : bool :=
  match s with [] => false | _ :: _ => true end.

(** A number in a boolean position: [0] is falsy (the JSON body brings
    no [NaN]). *)
Definition truthy (x : Q) : bool := negb (Qeq_bool x 0).

(** [x < y] and [x > y] on numbers. *)
Definition ltb (x y : Q) : bool := negb (Qle_bool y x).
Definition gtb (x y : Q) : bool := ltb y x.
(** [x <= y] and [x >= y] on numbers. *)
Definition leb (x y : Q) : bool := Qle_bool x y.
Definition geb (x y : Q) : bool := Qle_bool y x.

(** [Math.round]: the nearest integer, a tie going up. *)
Definition round (x : Q) : Z := Qfloor (x + (1 # 2)).

(** [Math.min] *)
Definition min (x y : Q) : Q := Qmin x y.

(** A template literal's rendering of an integral number, in decimal
    digits with a leading minus sign (the form JavaScript prints for
    integers of magnitude below 10^21). *)
Definition numberToString (n : Z) : jsstring :=
  lit (NilZero.string_of_int (Z.to_int n)).

End JS.

(** The euro sign, U+20AC, one code unit. *)
Definition euro : N := 8364%N.

(** ** The user profile *)

Record UserProfile : Type := mkProfile {
  age : option Q;
  drivingExperience : option Q;
  vehicleType : option jsstring;
  annualMileage : option Q;
  drivingHabits : option jsstring;
  hasAccidents : option bool;
  accidentCount : option Q;
  vehicleValue : option Q;
  budgetRange : option jsstring
}.

(** The profile with no field supplied. *)
Definition emptyProfile : UserProfile :=
  mkProfile None None None None None None None None None.

(** ** recommendPolicy: the risk score

    The source keeps one accumulator, [riskScore], and four blocks add to
    it in turn; each block is a function from the accumulator before it
    to the accumulator after it. *)

Definition scoreAge (profile : UserProfile) (riskScore : Q) : Q :=
  match age profile with
  | Some a =>
      if JS.truthy a then
        if JS.ltb a 25 then riskScore + 3
        else if JS.ltb a 35 then riskScore + 1
        else if JS.gtb a 70 then riskScore + 2
        else riskScore
      else riskScore
  | None => riskScore
  end.

Definition scoreExperience (profile : UserProfile) (riskScore : Q) : Q :=
  match drivingExperience profile with
  | Some e =>
      if JS.truthy e then
        if JS.ltb e 2 then riskScore + 2
        else if JS.ltb e 5 then riskScore + 1
        else riskScore
      else riskScore
  | None => riskScore
  end.

(** [profile.accidentCount || 1] *)
Definition accidentCountOr1 (profile : UserProfile) : Q :=
  match accidentCount profile with
  | Some c => if JS.truthy c then c else 1
  | None => 1
  end.

Definition scoreAccidents (profile : UserProfile) (riskScore : Q) : Q :=
  match hasAccidents profile with
  | Some true => riskScore + accidentCountOr1 profile * 2
  | _ => riskScore
  end.

Definition scoreMileage (profile : UserProfile) (riskScore : Q) : Q :=
  match annualMileage profile with
  | Some m =>
      if JS.truthy m then
        if JS.gtb m 30000 then riskScore + 1 else riskScore
      else riskScore
  | None => riskScore
  end.

(** The accumulator after the four blocks, from [let riskScore = 0]. *)
Definition riskScoreOf (profile : UserProfile) : Q :=
  scoreMileage profile
    (scoreAccidents profile
       (scoreExperience profile
          (scoreAge profile 0))).

(** [riskScore <= 2 ? "Low" : riskScore <= 4 ? "Medium" : "High"] *)
Definition riskLevelOf (riskScore : Q) : jsstring :=
  if JS.leb riskScore 2 then JS.lit "Low"
  else if JS.leb riskScore 4 then JS.lit "Medium"
  else JS.lit "High".

(** ** recommendPolicy: the coverage list *)

(** [arr.push(x)] on the array held in a local variable. *)
Definition push {A : Type} (arr : list A) (x : A) : list A := arr ++ [x].

(** [x && x > k] for an optional number [x]. *)
Definition presentAndGt (x : option Q) (k : Q) : bool :=
  match x with
  | Some v => JS.truthy v && JS.gtb v k
  | None => false
  end.

(** [s === literal] for an optional string [s]. *)
Definition strictEq (s : option jsstring) (literal : jsstring) : bool :=
  match s with
  | Some v => JS.eqb v literal
  | None => false
  end.

Definition ThirdPartyLiability : jsstring := JS.lit "Third-Party Liability (Mandatory)".
Definition ComprehensiveCoverage : jsstring := JS.lit "Comprehensive Coverage".
Definition CollisionProtection : jsstring := JS.lit "Collision Protection".
Definition FullCoveragePackage : jsstring := JS.lit "Full Coverage Package".
Definition RoadsideAssistance : jsstring := JS.lit "Roadside Assistance".
Definition BreakdownAssistance : jsstring := JS.lit "Breakdown Assistance".
Definition ExtendedCoverage : jsstring := JS.lit "Extended Coverage".
Definition LegalAssistance : jsstring := JS.lit "Legal Assistance".
Definition highway : jsstring := JS.lit "highway".

(** The array [recommendedCoverages] after the five blocks that push to
    it, for the risk score the first half of the function computed. *)
Definition coveragesFor (profile : UserProfile) (riskScore : Q) : list jsstring :=
  let recommendedCoverages := [] in
  let recommendedCoverages := push recommendedCoverages ThirdPartyLiability in
  let recommendedCoverages :=
    if JS.geb riskScore 4
    then push (push recommendedCoverages ComprehensiveCoverage) CollisionProtection
    else recommendedCoverages in
  let recommendedCoverages :=
    if presentAndGt (vehicleValue profile) 20000
    then push (push recommendedCoverages FullCoveragePackage) RoadsideAssistance
    else recommendedCoverages in
  let recommendedCoverages :=
    if presentAndGt (annualMileage profile) 20000
    then push recommendedCoverages BreakdownAssistance
    else recommendedCoverages in
  let recommendedCoverages :=
    if strictEq (drivingHabits profile) highway
    then push (push recommendedCoverages ExtendedCoverage) LegalAssistance
    else recommendedCoverages in
  recommendedCoverages.

Definition recommendedCoveragesOf (profile : UserProfile) : list jsstring :=
  coveragesFor profile (riskScoreOf profile).

(** ** calculateEstimatedPremium *)

Definition budget50to100 : jsstring := euro :: JS.lit "50-100".
Definition budget100to150 : jsstring := euro :: JS.lit "100-150".

(** [basePrice] when the function reaches [Math.round]. *)
Definition basePriceOf (profile : UserProfile) (riskScore : Q) : Q :=
  let basePrice := 80 in
  let basePrice := basePrice + riskScore * 15 in
  let basePrice :=
    match vehicleValue profile with
    | Some v => if JS.truthy v then basePrice + v / 1000 else basePrice
    | None => basePrice
    end in
  let basePrice :=
    match annualMileage profile with
    | Some m =>
        if JS.truthy m then
          if JS.gtb m 30000 then basePrice + 20 else basePrice
        else basePrice
    | None => basePrice
    end in
  let basePrice :=
    if strictEq (budgetRange profile) budget50to100 then JS.min basePrice 100
    else if strictEq (budgetRange profile) budget100to150 then JS.min basePrice 150
    else basePrice in
  basePrice.

Definition estimatedMonthlyOf (profile : UserProfile) (riskScore : Q) : Z :=
  JS.round (basePriceOf profile riskScore).

Definition estimatedAnnualOf (profile : UserProfile) (riskScore : Q) : Z :=
  JS.round (basePriceOf profile riskScore * 12).

(** The template literal of the [return]. *)
Definition premiumText (estimatedMonthly estimatedAnnual : Z) : jsstring :=
  [euro] ++ JS.numberToString estimatedMonthly
    ++ JS.lit "/month (approximately " ++ [euro]
    ++ JS.numberToString estimatedAnnual ++ JS.lit "/year)".

Definition calculateEstimatedPremium (profile : UserProfile) (riskScore : Q) : jsstring :=
  let estimatedMonthly := estimatedMonthlyOf profile riskScore in
  let estimatedAnnual := estimatedAnnualOf profile riskScore in
  premiumText estimatedMonthly estimatedAnnual.

(** ** recommendPolicy: the object it serialises *)

(** The values the [recommendation] literal is built from.  A property
    whose value is [undefined] is a key of the object, and
    [JSON.stringify] leaves it out of the text. *)
#[warnings="-register-all"]
Inductive jsvalue : Type :=
| JUndefined
| JNumber (x : Q)
| JString (s : jsstring)
| JArray (items : list jsvalue)
| JObject (fields : list (String.string * jsvalue)).

Definition ofNumber (x : option Q) : jsvalue :=
  match x with Some v => JNumber v | None => JUndefined end.

Definition ofString (s : option jsstring) : jsvalue :=
  match s with Some v => JString v | None => JUndefined end.

Definition isUndefined (v : jsvalue) : bool :=
  match v with JUndefined => true | _ => false end.

(** [Object.keys(o)] *)
Definition keys (fields : list (String.string * jsvalue)) : list String.string :=
  List.map fst fields.

(** [o[k]], [None] when [k] is not a property of [o]. *)
Fixpoint getProperty (k : String.string) (fields : list (String.string * jsvalue))
  : option jsvalue :=
  match fields with
  | [] => None
  | (k', v) :: rest => if String.eqb k k' then Some v else getProperty k rest
  end.

(** The properties [JSON.stringify] writes for an object. *)
Definition writtenFields (fields : list (String.string * jsvalue))
  : list (String.string * jsvalue) :=
  List.filter (fun kv => negb (isUndefined (snd kv))) fields.

(** [s || fallback] for an optional string. *)
Definition orElse (s : option jsstring) (fallback : jsstring) : jsstring :=
  match s with
  | Some v => if JS.truthyString v then v else fallback
  | None => fallback
  end.

Definition profileSummaryOf (profile : UserProfile) (riskScore : Q)
  : list (String.string * jsvalue) :=
  [ ("age", ofNumber (age profile));
    ("experience", ofNumber (drivingExperience profile));
    ("vehicleType", ofString (vehicleType profile));
    ("riskLevel", JString (riskLevelOf riskScore));
    ("riskScore", JNumber riskScore) ].

Definition recommendationOf (profile : UserProfile) : jsvalue :=
  let riskScore := riskScoreOf profile in
  let recommendedCoverages := coveragesFor profile riskScore in
  JObject
    [ ("profileSummary", JObject (profileSummaryOf profile riskScore));
      ("recommendation", JObject
         [ ("policyName", JString (JS.lit "RGF Car Insurance - Personalized"));
           ("description", JString (JS.lit
              "Based on your profile, we recommend the following RGF car insurance coverage"));
           ("recommendedCoverages", JArray (List.map JString recommendedCoverages));
           ("estimatedPremium", JString (calculateEstimatedPremium profile riskScore));
           ("highlights", JArray
              [ JString (JS.lit "Tailored for "
                           ++ orElse (vehicleType profile) (JS.lit "your vehicle")
                           ++ JS.lit " owners");
                JString (JS.lit "Suitable for "
                           ++ orElse (drivingHabits profile) (JS.lit "your")
                           ++ JS.lit " driving habits");
                JString (JS.lit "Comprehensive protection for your needs");
                JString (JS.lit "24/7 customer support and assistance") ]) ]);
      ("nextSteps", JArray
         [ JString (JS.lit "Review the recommended coverages above");
           JString (JS.lit "Contact our team for a detailed quote");
           JString (JS.lit "Compare with other options if desired");
           JString (JS.lit "Complete your online application") ]) ].

(** The [profileSummary] property of the object [recommendPolicy] builds. *)
Definition profileSummary (profile : UserProfile) : list (String.string * jsvalue) :=
  match recommendationOf profile with
  | JObject fields =>
      match getProperty "profileSummary" fields with
      | Some (JObject summary) => summary
      | _ => []
      end
  | _ => []
  end.

(** ** The parsed page

    [cheerio.load(response.data)] turns the markup into a tree; the
    extractors only read that tree.  An element keeps its tag name as the
    parser gives it and the tokens of its [class] attribute, the two
    things the selectors of the source look at. *)

#[warnings="-register-all"]
Inductive node : Type :=
| Text (data : jsstring)
| Comment (data : jsstring)
| Element (name : String.string) (classes : list String.string) (children : list node).

(** The children of the document root, in document order. *)
Definition document : Type := list node.

(** [target] is [n] itself or one of its descendants. *)
Inductive subnode (target : node) : node -> Prop :=
| subnode_here : subnode target target
| subnode_child (name : String.string) (classes : list String.string)
    (children : list node) (child : node) :
    In child children -> subnode target child ->
    subnode target (Element name classes children).

(** [target] is somewhere in the page. *)
Definition inDocument (target : node) (doc : document) : Prop :=
  exists root, In root doc /\ subnode target root.

(** [$(element).text()]: the text nodes below the element, concatenated. *)
Fixpoint textContent (n : node) : jsstring :=
  match n with
  | Text data => data
  | Comment _ => []
  | Element _ _ children => flat_map textContent children
  end.

(** [$(selection).text()] on a selection of several elements. *)
Definition textOfAll (selection : list node) : jsstring :=
  flat_map textContent selection.

(** A selector made of tag names and class names, as a test on an
    element's name and classes. *)
Definition selector : Type := String.string -> list String.string -> bool.

Definition hasTag (tags : list String.string) : selector :=
  fun name _ => existsb (String.eqb name) tags.

Definition hasClass (cls : String.string) : selector :=
  fun _ classes => existsb (String.eqb cls) classes.

(** [$(sel)] below one node: the matching elements, in document order. *)
Fixpoint select (sel : selector) (n : node) : list node :=
  match n with
  | Element name classes children =>
      (if sel name classes then [n] else []) ++ flat_map (select sel) children
  | _ => []
  end.

(** [$(sel)] on the page. *)
Definition selectAll (sel : selector) (doc : document) : list node :=
  flat_map (select sel) doc.

(** [$(outer).find(inner)] below one node: the elements matching [inner]
    that have a proper ancestor matching [outer], each once, in document
    order; [inside] tells whether such an ancestor was already passed. *)
Fixpoint findIn (outer inner : selector) (inside : bool) (n : node) : list node :=
  match n with
  | Element name classes children =>
      (if inside && inner name classes then [n] else [])
        ++ flat_map (findIn outer inner (inside || outer name classes)) children
  | _ => []
  end.

Definition findAll (outer inner : selector) (doc : document) : list node :=
  flat_map (findIn outer inner false) doc.

(** ASCII case mapping, for tag names. *)
Definition upperAscii (c : ascii) : ascii :=
  let n := nat_of_ascii c in
  if ((97 <=? n) && (n <=? 122))%nat then ascii_of_nat (n - 32) else c.

Definition lowerAscii (c : ascii) : ascii :=
  let n := nat_of_ascii c in
  if ((65 <=? n) && (n <=? 90))%nat then ascii_of_nat (n + 32) else c.

Fixpoint mapString (f : ascii -> ascii) (s : String.string) : String.string :=
  match s with
  | EmptyString => EmptyString
  | String c s' => String (f c) (mapString f s')
  end.

Definition toUpperCase : String.string -> String.string := mapString upperAscii.
Definition toLowerCase : String.string -> String.string := mapString lowerAscii.

(** [$(element).prop("tagName")]: the name in upper case, [undefined] on
    a node that is not an element. *)
Definition tagNameProp (n : node) : option String.string :=
  match n with
  | Element name _ _ => Some (toUpperCase name)
  | _ => None
  end.

(** ** extractText *)

Definition textTags : list String.string :=
  ["p"; "h1"; "h2"; "h3"; "h4"; "h5"; "h6"; "li"; "span"; "div"].

(** The separator of the join: two line feeds. *)
Definition blankLine : jsstring := [10%N; 10%N].

(** The callback of [.each]: [paragraphs] before and after one element. *)
Definition extractTextStep (paragraphs : list jsstring) (element : node) : list jsstring :=
  let text := JS.trim (textContent element) in
  if JS.truthyString text && (JS.length text >? 0)%Z
  then push paragraphs text
  else paragraphs.

Definition paragraphsOf (doc : document) : list jsstring :=
  fold_left extractTextStep (selectAll (hasTag textTags) doc) [].

Definition extractText (doc : document) : jsstring :=
  JS.join blankLine (paragraphsOf doc).

(** ** getRGFPolicyInfo *)

Record PolicyInfo : Type := mkPolicyInfo {
  policyName : jsstring;
  url : jsstring;
  coverageTypes : list jsstring;
  features : list jsstring;
  benefits : list jsstring;
  fullDetails : jsstring
}.

Definition TARGET_URL : jsstring := JS.lit "https://myinsurancepolicy.be/rgf/car/fr".

Definition isContainer : selector :=
  fun name classes =>
    hasTag ["section"; "article"] name classes
    || hasClass "content" name classes
    || hasClass "policy-details" name classes.

Definition isScanned : selector := hasTag ["h2"; "h3"; "li"; "p"].

(** The callback of [.each]: [policyInfo] before and after one element. *)
Definition policyStep (policyInfo : PolicyInfo) (element : node) : PolicyInfo :=
  let text := JS.trim (textContent element) in
  if JS.truthyString text && (JS.length text >? 20)%Z then
    let tagName :=
      toLowerCase (match tagNameProp element with Some t => t | None => "" end) in
    if String.eqb tagName "h2" || String.eqb tagName "h3" then
      mkPolicyInfo (policyName policyInfo) (url policyInfo)
        (push (coverageTypes policyInfo) text)
        (features policyInfo) (benefits policyInfo) (fullDetails policyInfo)
    else if String.eqb tagName "li" then
      mkPolicyInfo (policyName policyInfo) (url policyInfo)
        (coverageTypes policyInfo)
        (push (features policyInfo) text)
        (benefits policyInfo) (fullDetails policyInfo)
    else policyInfo
  else policyInfo.

Definition getRGFPolicyInfo (doc : document) : PolicyInfo :=
  let policyInfo := mkPolicyInfo (JS.lit "RGF Car Insurance") TARGET_URL [] [] [] [] in
  let policyInfo := fold_left policyStep (findAll isContainer isScanned doc) policyInfo in
  mkPolicyInfo (policyName policyInfo) (url policyInfo)
    (coverageTypes policyInfo) (features policyInfo) (benefits policyInfo)
    (JS.substring0 8000%Z (JS.trim (textOfAll (selectAll (hasTag ["body"]) doc)))).

(** ** The rules as the specification words them

    Each definition below restates one rule of the specification with
    the order relations and equalities of the library, independently of
    the helpers the embedding of the source uses; the theorems compare
    the two. *)

(** The age rule: the first matching bracket decides. *)
Definition ageChain (a : Q) : Q :=
  if Qlt_le_dec a 25 then 3
  else if Qlt_le_dec a 35 then 1
  else if Qlt_le_dec 70 a then 2
  else 0.

(** A number that is an integer and not negative. *)
Definition isNonNegInteger (x : Q) : bool :=
  Qle_bool 0 x && Qeq_bool (inject_Z (Qfloor x)) x.

(** An optional number that, when supplied, is not negative. *)
Definition nonNegative (x : option Q) : bool :=
  match x with
  | Some v => Qle_bool 0 v
  | None => true
  end.

(** Every supplied numeric field of the profile is non-negative. *)
Definition nonNegativeFields (profile : UserProfile) : bool :=
  nonNegative (age profile) && nonNegative (drivingExperience profile)
  && nonNegative (annualMileage profile) && nonNegative (accidentCount profile)
  && nonNegative (vehicleValue profile).

(** [x > k] for an optional number, false when it is absent. *)
Definition exceeds (x : option Q) (k : Q) : bool :=
  match x with
  | Some v => if Qlt_le_dec k v then true else false
  | None => false
  end.

Definition jsstring_eq_dec (a b : jsstring) : {a = b} + {a <> b} :=
  list_eq_dec N.eq_dec a b.

(** The optional string is exactly the literal. *)
Definition isLiteral (s : option jsstring) (literal : jsstring) : bool :=
  match s with
  | Some v => if jsstring_eq_dec v literal then true else false
  | None => false
  end.

Definition option_eq_dec (a b : option jsstring) : {a = b} + {a <> b}.
Proof. decide equality. apply jsstring_eq_dec. Defined.

(** The coverage list, block by block. *)
Definition specCoverages (profile : UserProfile) (riskScore : Q) : list jsstring :=
  [ThirdPartyLiability]
    ++ (if Qlt_le_dec riskScore 4 then [] else [ComprehensiveCoverage; CollisionProtection])
    ++ (if exceeds (vehicleValue profile) 20000
        then [FullCoveragePackage; RoadsideAssistance] else [])
    ++ (if exceeds (annualMileage profile) 20000 then [BreakdownAssistance] else [])
    ++ (if isLiteral (drivingHabits profile) highway
        then [ExtendedCoverage; LegalAssistance] else []).

(** The premium before the budget cap. *)
Definition specBase (profile : UserProfile) (riskScore : Q) : Q :=
  80 + 15 * riskScore
  + match vehicleValue profile with
    | Some v => if Qeq_dec v 0 then 0 else v / 1000
    | None => 0
    end
  + (if exceeds (annualMileage profile) 30000 then 20 else 0).

(** The budget cap. *)
Definition specCapped (profile : UserProfile) (riskScore : Q) : Q :=
  let base := specBase profile riskScore in
  if isLiteral (budgetRange profile) budget50to100 then Qmin base 100
  else if isLiteral (budgetRange profile) budget100to150 then Qmin base 150
  else base.

(** Rounding to the nearest integer, a tie going up. *)
Definition specRound (x : Q) : Z := Qfloor (x + 1 / 2).

(** ** Reading the extractors' loops *)

Definition trimmedText (element : node) : jsstring :=
  JS.trim (textContent element).

(** The trimmed text has more than twenty code units. *)
Definition longText (element : node) : bool :=
  (20 <? Z.of_nat (List.length (trimmedText element)))%Z.

Definition nonEmpty (s : jsstring) : bool :=
  match s with [] => false | _ => true end.

(** The element's tag name is one of [tags]. *)
Definition named (tags : list String.string) (n : node) : bool :=
  match n with
  | Element name _ _ => existsb (String.eqb name) tags
  | _ => false
  end.

(** Every node at or below [n], in document order. *)
Fixpoint preorder (n : node) : list node :=
  match n with
  | Element _ _ children => n :: flat_map preorder children
  | _ => [n]
  end.

(** The node is an element the selector matches. *)
Definition matchedBy (sel : selector) (n : node) : bool :=
  match n with
  | Element name classes _ => sel name classes
  | _ => false
  end.

(** How many times the code unit [c] occurs in [s]. *)
Definition occurrences (c : N) (s : jsstring) : nat := count_occ N.eq_dec s c.

(** How many pieces of [pieces] are the string [s]. *)
Definition piecesEqual (s : jsstring) (pieces : list jsstring) : nat :=
  count_occ jsstring_eq_dec pieces s.

(** ** Profiles and pages used as examples *)

Definition withAge (a : Q) : UserProfile :=
  mkProfile (Some a) None None None None None None None None.

Definition withAccidents (count : option Q) : UserProfile :=
  mkProfile None None None None None (Some true) count None None.

Definition withHabits (profile : UserProfile) (habits : jsstring) : UserProfile :=
  mkProfile (age profile) (drivingExperience profile) (vehicleType profile)
    (annualMileage profile) (Some habits) (hasAccidents profile)
    (accidentCount profile) (vehicleValue profile) (budgetRange profile).

(** A young, inexperienced driver of an expensive car on a small budget. *)
Definition youngDriver : UserProfile :=
  mkProfile (Some 22) (Some 1) (Some (JS.lit "Sedan")) (Some 35000)
    (Some highway) (Some true) (Some 2) (Some 25500) (Some budget50to100).

(** [<div><p>X</p></div>] as cheerio loads it. *)
Definition nestedX : node :=
  Element "div" [] [Element "p" [] [Text (JS.lit "X")]].

Definition nestedPage : document :=
  [Element "html" [] [Element "head" [] []; Element "body" [] [nestedX]]].

(** [x] is the image of a non-negative integer. *)
Definition natural (x : Q) : Prop := exists z : Z, (0 <= z)%Z /\ x == inject_Z z.

(** The accident count the accident block reads, if it reads one, is a
    non-negative integer. *)
Definition countedAccidentsNatural (profile : UserProfile) : bool :=
  match hasAccidents profile, accidentCount profile with
  | Some true, Some c => isNonNegInteger c
  | _, _ => true
  end.

(** An accident history with a negative count. *)
Definition negativeCount : UserProfile := withAccidents (Some (-1)).

(** The occurrences of [c] in the pieces of a list, added up. *)
Definition totalOccurrences (c : N) (pieces : list jsstring) : nat :=
  list_sum (List.map (occurrences c) pieces).

(** The tag name as the callback of [getRGFPolicyInfo] computes it. *)
Definition lowerTagName (n : node) : String.string :=
  toLowerCase (match tagNameProp n with Some t => t | None => "" end).

(** The tag test of the callback. *)
Definition tagIs (tags : list String.string) (e : node) : bool :=
  existsb (String.eqb (lowerTagName e)) tags.

(** A page with a policy section: a heading, a list item and a paragraph
    of more than twenty characters each, and a short heading. *)
Definition policyPage : document :=
  [Element "html" []
     [Element "head" [] [];
      Element "body" []
        [Element "section" []
           [Element "h2" [] [Text (JS.lit "  Comprehensive car insurance  ")];
            Element "h3" [] [Text (JS.lit "Short")];
            Element "ul" []
              [Element "li" [] [Text (JS.lit "Roadside assistance in all of Europe")]];
            Element "p" [] [Text (JS.lit "This paragraph is long enough to pass the filter")]];
         Element "h2" [] [Text (JS.lit "A heading outside of every container")]]]].

(** Induction on a page's tree, the hypothesis holding for every child
    of an element. *)
Section NodeInduction.
Variable P : node -> Prop.
Hypothesis onText : forall data, P (Text data).
Hypothesis onComment : forall data, P (Comment data).
Hypothesis onElement :
  forall name classes children,
    Forall P children -> P (Element name classes children).

Fixpoint node_induction (n : node) : P n :=
  match n with
  | Text data => onText data
  | Comment data => onComment data
  | Element name classes children =>
      onElement name classes children
        ((fix onChildren (l : list node) : Forall P l :=
            match l with
            | [] => Forall_nil P
            | child :: l' => Forall_cons child (node_induction child) (onChildren l')
            end) children)
  end.
End NodeInduction.

(** The score without the accident block. *)
Definition scoreWithoutAccidents (profile : UserProfile) : Q :=
  scoreMileage profile (scoreExperience profile (scoreAge profile 0)).

(** ** browsePage *)

(** [$("body").text().trim()] *)
Definition bodyText (doc : document) : jsstring :=
  JS.trim (textOfAll (selectAll (hasTag ["body"]) doc)).

(** What [browsePage] returns: the text itself, or the envelope it
    serialises when [includeHtml] is set. *)
Inductive BrowseResult : Type :=
| BrowseText (text : jsstring)
| BrowseEnvelope (fields : list (String.string * jsvalue)).

(** [data] is [response.data], the markup as fetched, and [doc] the tree
    [cheerio.load] makes of it. *)
Definition browsePage (data : jsstring) (doc : document) (includeHtml : bool)
  : BrowseResult :=
  let mainContent := bodyText doc in
  if includeHtml then
    BrowseEnvelope
      [ ("text_content", JString (JS.substring0 5000%Z mainContent));
        ("html_preview", JString (JS.substring0 3000%Z data)) ]
  else BrowseText (JS.substring0 10000%Z mainContent).

(** The string held by property [k] of an envelope. *)
Definition envelopeString (k : String.string) (r : BrowseResult) : option jsstring :=
  match r with
  | BrowseEnvelope fields =>
      match getProperty k fields with
      | Some (JString s) => Some s
      | _ => None
      end
  | BrowseText _ => None
  end.

(** ** getPageMetadata

    The metadata also reads attributes ([content], [href]), so the page
    is taken with them: an element carries its class tokens and, apart
    from [class], its attributes as the parser stores them, by name. *)

#[warnings="-register-all"]
Inductive html : Type :=
| HText (data : jsstring)
| HComment (data : jsstring)
| HElement (name : String.string) (classes : list String.string)
    (attribs : list (String.string * jsstring)) (children : list html).

(** The same tree without the attributes. *)
Fixpoint forget (n : html) : node :=
  match n with
  | HText data => Text data
  | HComment data => Comment data
  | HElement name classes _ children => Element name classes (List.map forget children)
  end.

(** [elem.attribs[k]] *)
Fixpoint getAttrib (k : String.string) (attribs : list (String.string * jsstring))
  : option jsstring :=
  match attribs with
  | [] => None
  | (k', v) :: rest => if String.eqb k k' then Some v else getAttrib k rest
  end.

(** A selector that looks at the tag name and the attributes. *)
Definition hselector : Type :=
  String.string -> list (String.string * jsstring) -> bool.

(** [$(sel)] below one node, in document order. *)
Fixpoint hselect (sel : hselector) (n : html) : list html :=
  match n with
  | HElement name _ attribs children =>
      (if sel name attribs then [n] else []) ++ flat_map (hselect sel) children
  | _ => []
  end.

Definition hselectAll (sel : hselector) (page : list html) : list html :=
  flat_map (hselect sel) page.

(** [$(selection).attr(k)]: the attribute of the first selected element. *)
Definition attr (k : String.string) (selection : list html) : option jsstring :=
  match selection with
  | HElement _ _ attribs _ :: _ => getAttrib k attribs
  | _ => None
  end.

(** [tag[k="value"]] *)
Definition tagWithAttrib (tag k : String.string) (value : jsstring) : hselector :=
  fun name attribs =>
    String.eqb name tag
    && match getAttrib k attribs with
       | Some v => JS.eqb v value
       | None => false
       end.

(** [tag[k]] *)
Definition tagHavingAttrib (tag k : String.string) : hselector :=
  fun name attribs =>
    String.eqb name tag
    && match getAttrib k attribs with Some _ => true | None => false end.

Record PageMetadata : Type := mkPageMetadata {
  meta_url : jsstring;
  meta_title : jsstring;
  meta_description : jsstring;
  og_title : option jsstring;
  og_description : option jsstring;
  links : list jsstring;
  headings : list jsstring
}.

Definition headingTags : list String.string :=
  ["h1"; "h2"; "h3"; "h4"; "h5"; "h6"].

(** The callback of the first [.each]: [metadata.links] before and after
    one anchor. *)
Definition linksStep (links : list jsstring) (element : html) : list jsstring :=
  match attr "href" [element] with
  | Some href => if JS.truthyString href then push links href else links
  | None => links
  end.

(** The callback of the second [.each]: [metadata.headings] before and
    after one heading. *)
Definition headingsStep (headings : list jsstring) (element : node) : list jsstring :=
  let text := JS.trim (textContent element) in
  if JS.truthyString text then push headings text else headings.

(** [s || fallback] for a string. *)
Definition textOrElse (s fallback : jsstring) : jsstring :=
  if JS.truthyString s then s else fallback.

Definition getPageMetadata (page : list html) : PageMetadata :=
  let doc := List.map forget page in
  let title :=
    textOrElse (textOfAll (selectAll (hasTag ["title"]) doc)) (JS.lit "No title found") in
  let description :=
    orElse (attr "content"
              (hselectAll (tagWithAttrib "meta" "name" (JS.lit "description")) page))
      (JS.lit "No description") in
  let ogTitle :=
    attr "content" (hselectAll (tagWithAttrib "meta" "property" (JS.lit "og:title")) page) in
  let ogDescription :=
    attr "content"
      (hselectAll (tagWithAttrib "meta" "property" (JS.lit "og:description")) page) in
  let links := fold_left linksStep (hselectAll (tagHavingAttrib "a" "href") page) [] in
  let headings := fold_left headingsStep (selectAll (hasTag headingTags) doc) [] in
  mkPageMetadata TARGET_URL title description ogTitle ogDescription links headings.

(** Induction on a page's tree with attributes. *)
Section HtmlInduction.
Variable P : html -> Prop.
Hypothesis onHText : forall data, P (HText data).
Hypothesis onHComment : forall data, P (HComment data).
Hypothesis onHElement :
  forall name classes attribs children,
    Forall P children -> P (HElement name classes attribs children).

Fixpoint html_induction (n : html) : P n :=
  match n with
  | HText data => onHText data
  | HComment data => onHComment data
  | HElement name classes attribs children =>
      onHElement name classes attribs children
        ((fix onChildren (l : list html) : Forall P l :=
            match l with
            | [] => Forall_nil P
            | child :: l' => Forall_cons child (html_induction child) (onChildren l')
            end) children)
  end.
End HtmlInduction.

(** The [href] values of the anchors at or below a node, in document
    order, read off the tree without any selection. *)
Fixpoint hrefsBelow (n : html) : list jsstring :=
  match n with
  | HElement name _ attribs children =>
      (if String.eqb name "a" then
         match getAttrib "href" attribs with Some h => [h] | None => [] end
       else [])
        ++ flat_map hrefsBelow children
  | _ => []
  end.

(** ** getPolicyQuestionnaire *)






(** ** Reading the results *)

Definition withBudget (profile : UserProfile) (budget : jsstring) : UserProfile :=
  mkProfile (age profile) (drivingExperience profile) (vehicleType profile)
    (annualMileage profile) (drivingHabits profile) (hasAccidents profile)
    (accidentCount profile) (vehicleValue profile) (Some budget).

(** The string neither starts nor ends with a code unit [trim] strips. *)
Definition startsClean (s : jsstring) : bool :=
  match s with
  | c :: _ => negb (JS.isWhiteSpace c)
  | [] => true
  end.

Definition endsClean (s : jsstring) : bool := startsClean (rev s).

(** [l1] is [l2] with some entries left out, the order kept. *)
Inductive subsequence {A : Type} : list A -> list A -> Prop :=
| subsequence_nil : subsequence [] []
| subsequence_skip (x : A) (l1 l2 : list A) :
    subsequence l1 l2 -> subsequence l1 (x :: l2)
| subsequence_keep (x : A) (l1 l2 : list A) :
    subsequence l1 l2 -> subsequence (x :: l1) (x :: l2).

(** [s] is a prefix of [t]. *)
Definition prefixOf (s t : jsstring) : Prop := exists rest, t = s ++ rest.

(** A page with a title, a description, two headings and four anchors,
    one without [href] and one with an empty one. *)
Definition linkedPage : list html :=
  [HElement "html" [] []
     [HElement "head" [] []
        [HElement "title" [] [] [HText (JS.lit "RGF")];
         HElement "meta" [] [("name", JS.lit "description"); ("content", JS.lit "Car")] []];
      HElement "body" [] []
        [HElement "h1" [] [] [HText (JS.lit " Cover ")];
         HElement "a" [] [("href", JS.lit "/quote")] [HText (JS.lit "Quote")];
         HElement "div" [] []
           [HElement "h2" [] [] [HText (JS.lit "Options")];
            HElement "a" [] [("href", [])] [];
            HElement "a" [] [] [HText (JS.lit "anchor")];
            HElement "a" [] [("href", JS.lit "/quote")] [HText (JS.lit "Again")]]]]].

(** ** Numbers as the engine computes them: binary64

    The definitions above carry numbers as exact rationals, which is
    what the comparisons and the small integer sums of the engine see.
    Where a property depends on the value the arithmetic produces, the
    engine is modelled again here on IEEE 754 binary64, the Number type
    of JavaScript: a profile field is the decimal number written in the
    request body, [parse] gives the double [JSON.parse] makes of it, and
    every operation rounds to nearest, ties to even.  The two zeros are
    not told apart: no operation of the source can tell them (they
    compare equal, both are falsy, both print as [0], and nothing
    divides by them). *)

Module Binary64.

Inductive double : Type :=
| NaN
| Inf (negative : bool)
| Fin (q : Q).

(** [2 ^ k] for any integer [k]. *)
Definition pow2 (k : Z) : Q :=
  if (0 <=? k)%Z then inject_Z (2 ^ k) else 1 # Z.to_pos (2 ^ (- k)).

(** For [q > 0], the integer [e] with [2 ^ e <= q < 2 ^ (e + 1)]. *)
Definition ilog2 (q : Q) : Z :=
  let d := (Z.log2 (Qnum q) - Z.log2 (Zpos (Qden q)))%Z in
  if Qle_bool (pow2 d) q then d else (d - 1)%Z.

(** The nearest integer, a tie going to the even one. *)
Definition rne (q : Q) : Z :=
  let f := Qfloor q in
  match Qcompare (q - inject_Z f) (1 # 2) with
  | Lt => f
  | Gt => (f + 1)%Z
  | Eq => if Z.even f then f else (f + 1)%Z
  end.

(** The exponent of the last place of the double nearest to [q]:
    53 significant bits, and no less than [2 ^ -1074]. *)
Definition quantum (q : Q) : Z := Z.max (ilog2 (Qabs q) - 52) (-1074).

(** The double nearest to the real number [q]; from [2 ^ 1024] on the
    rounded value overflows to an infinity. *)
Definition round64 (q : Q) : double :=
  if Qeq_bool q 0 then Fin 0
  else
    let k := quantum q in
    let v := inject_Z (rne (q / pow2 k)) * pow2 k in
    if Qle_bool (pow2 1024) (Qabs v) then Inf (negb (Qle_bool 0 q))
    else Fin (Qred v).

(** A number of the request body, as [JSON.parse] reads it. *)
Definition parse (q : Q) : double := round64 q.

(** An integer literal of the source. *)
Definition lit (z : Z) : double := Fin (inject_Z z).

Definition isNegative (q : Q) : bool := negb (Qle_bool 0 q).

(** [x + y] *)
Definition add (x y : double) : double :=
  match x, y with
  | NaN, _ => NaN
  | _, NaN => NaN
  | Inf a, Inf b => if Bool.eqb a b then Inf a else NaN
  | Inf a, Fin _ => Inf a
  | Fin _, Inf b => Inf b
  | Fin p, Fin q => round64 (p + q)
  end.

(** [x * y] *)
Definition mul (x y : double) : double :=
  match x, y with
  | NaN, _ => NaN
  | _, NaN => NaN
  | Inf a, Inf b => Inf (xorb a b)
  | Inf a, Fin q => if Qeq_bool q 0 then NaN else Inf (xorb a (isNegative q))
  | Fin p, Inf b => if Qeq_bool p 0 then NaN else Inf (xorb (isNegative p) b)
  | Fin p, Fin q => round64 (p * q)
  end.

(** [x / d] for a positive literal [d] of the source. *)
Definition divBy (d : Z) (x : double) : double :=
  match x with
  | NaN => NaN
  | Inf a => Inf a
  | Fin p => round64 (p / inject_Z d)
  end.

(** [x < y]; false as soon as one side is [NaN]. *)
Definition ltb (x y : double) : bool :=
  match x, y with
  | NaN, _ => false
  | _, NaN => false
  | Inf a, Inf b => a && negb b
  | Inf a, Fin _ => a
  | Fin _, Inf b => negb b
  | Fin p, Fin q => JS.ltb p q
  end.

(** [x > y] *)
Definition gtb (x y : double) : bool := ltb y x.

(** A number in a boolean position: zero and [NaN] are falsy. *)
Definition truthy (x : double) : bool :=
  match x with
  | NaN => false
  | Inf _ => true
  | Fin q => JS.truthy q
  end.

(** [Math.round]: the nearest integer, a tie going up; exact on every
    double. *)
Definition round (x : double) : double :=
  match x with
  | Fin q => Fin (inject_Z (Qfloor (q + (1 # 2))))
  | _ => x
  end.

(** [Math.min] *)
Definition min (x y : double) : double :=
  match x, y with
  | NaN, _ => NaN
  | _, NaN => NaN
  | _, _ => if ltb y x then y else x
  end.

(** [x === y] on numbers, as far as the model tells doubles apart. *)
Definition same (x y : double) : bool :=
  match x, y with
  | Fin p, Fin q => Qeq_bool p q
  | Inf a, Inf b => Bool.eqb a b
  | _, _ => false
  end.

(** *** Number::toString *)

(** [10 ^ n] for any integer [n]. *)
Definition pow10 (n : Z) : Q :=
  if (0 <=? n)%Z then inject_Z (10 ^ n) else 1 # Z.to_pos (10 ^ (- n)).

(** The decimal digits of a non-negative integer. *)
Definition digits (s : Z) : jsstring :=
  JS.lit (NilZero.string_of_int (Z.to_int s)).

Definition digitCount (s : Z) : Z := Z.of_nat (List.length (digits s)).

(** For [q > 0], the integer [n] with [10 ^ (n - 1) <= q < 10 ^ n]. *)
Definition decimalExponent (q : Q) : Z :=
  let d := (digitCount (Qnum q) - digitCount (Zpos (Qden q)))%Z in
  if Qle_bool (pow10 d) q then (d + 1)%Z else d.

(** With [k] digits: the integer [s] of [k] digits and the exponent
    [n'] such that [s * 10 ^ (n' - k)] reads back as the double [q], if
    there is one; of two, the nearer to [q]. *)
Definition withDigits (q : Q) (n k : Z) : option (Z * Z) :=
  let t := pow10 (n - k) in
  let s1 := Qfloor (q / t) in
  let s2 := (s1 + 1)%Z in
  let ok1 := (10 ^ (k - 1) <=? s1)%Z && same (round64 (inject_Z s1 * t)) (Fin q) in
  let ok2 := same (round64 (inject_Z s2 * t)) (Fin q) in
  let up := if (s2 <? 10 ^ k)%Z then (s2, n) else ((10 ^ (k - 1))%Z, (n + 1)%Z) in
  match ok1, ok2 with
  | true, true =>
      if Qle_bool (q - inject_Z s1 * t) (inject_Z s2 * t - q)
      then Some (s1, n) else Some up
  | true, false => Some (s1, n)
  | false, true => Some up
  | false, false => None
  end.

(** The least number of digits that reads back as [q], tried from [k]
    on; seventeen always do. *)
Fixpoint shortest (fuel : nat) (q : Q) (n k : Z) : Z * Z * Z :=
  match fuel with
  | O => (Qfloor (q / pow10 (n - k)), n, k)
  | S fuel' =>
      match withDigits q n k with
      | Some (s, n') => (s, n', k)
      | None => shortest fuel' q n (k + 1)
      end
  end.

Definition zeros (n : Z) : jsstring := List.repeat 48%N (Z.to_nat n).

(** The text of a positive finite number. *)
Definition positiveToString (q : Q) : jsstring :=
  let '(s, n, k) := shortest 17 q (decimalExponent q) 1 in
  let ds := digits s in
  if ((k <=? n) && (n <=? 21))%Z then ds ++ zeros (n - k)
  else if ((0 <? n) && (n <=? 21))%Z then
    firstn (Z.to_nat n) ds ++ JS.lit "." ++ skipn (Z.to_nat n) ds
  else if ((-6 <? n) && (n <=? 0))%Z then
    JS.lit "0." ++ zeros (- n) ++ ds
  else
    let exponent :=
      JS.lit "e" ++ (if (0 <=? n - 1)%Z then JS.lit "+" else JS.lit "-")
        ++ digits (Z.abs (n - 1)) in
    if (k =? 1)%Z then ds ++ exponent
    else firstn 1 ds ++ JS.lit "." ++ skipn 1 ds ++ exponent.

(** A number inside a template literal. *)
Definition toString (x : double) : jsstring :=
  match x with
  | NaN => JS.lit "NaN"
  | Inf false => JS.lit "Infinity"
  | Inf true => JS.lit "-Infinity"
  | Fin q =>
      if Qeq_bool q 0 then JS.lit "0"
      else if isNegative q then JS.lit "-" ++ positiveToString (- q)
      else positiveToString q
  end.

(** *** The engine on doubles *)

Definition number (x : option Q) : option double := option_map parse x.

Definition scoreAge (profile : UserProfile) (riskScore : double) : double :=
  match number (age profile) with
  | Some a =>
      if truthy a then
        if ltb a (lit 25) then add riskScore (lit 3)
        else if ltb a (lit 35) then add riskScore (lit 1)
        else if gtb a (lit 70) then add riskScore (lit 2)
        else riskScore
      else riskScore
  | None => riskScore
  end.

Definition scoreExperience (profile : UserProfile) (riskScore : double) : double :=
  match number (drivingExperience profile) with
  | Some e =>
      if truthy e then
        if ltb e (lit 2) then add riskScore (lit 2)
        else if ltb e (lit 5) then add riskScore (lit 1)
        else riskScore
      else riskScore
  | None => riskScore
  end.

(** [profile.accidentCount || 1] *)
Definition accidentCountOr1 (profile : UserProfile) : double :=
  match number (accidentCount profile) with
  | Some c => if truthy c then c else lit 1
  | None => lit 1
  end.

Definition scoreAccidents (profile : UserProfile) (riskScore : double) : double :=
  match hasAccidents profile with
  | Some true => add riskScore (mul (accidentCountOr1 profile) (lit 2))
  | _ => riskScore
  end.

Definition scoreMileage (profile : UserProfile) (riskScore : double) : double :=
  match number (annualMileage profile) with
  | Some m =>
      if truthy m then
        if gtb m (lit 30000) then add riskScore (lit 1) else riskScore
      else riskScore
  | None => riskScore
  end.

Definition riskScoreOf (profile : UserProfile) : double :=
  scoreMileage profile
    (scoreAccidents profile
       (scoreExperience profile
          (scoreAge profile (lit 0)))).

(** [basePrice] when [calculateEstimatedPremium] reaches [Math.round]. *)
Definition basePriceOf (profile : UserProfile) (riskScore : double) : double :=
  let basePrice := lit 80 in
  let basePrice := add basePrice (mul riskScore (lit 15)) in
  let basePrice :=
    match number (vehicleValue profile) with
    | Some v => if truthy v then add basePrice (divBy 1000 v) else basePrice
    | None => basePrice
    end in
  let basePrice :=
    match number (annualMileage profile) with
    | Some m =>
        if truthy m then
          if gtb m (lit 30000) then add basePrice (lit 20) else basePrice
        else basePrice
    | None => basePrice
    end in
  let basePrice :=
    if strictEq (budgetRange profile) budget50to100 then min basePrice (lit 100)
    else if strictEq (budgetRange profile) budget100to150 then min basePrice (lit 150)
    else basePrice in
  basePrice.

Definition estimatedMonthlyOf (profile : UserProfile) (riskScore : double) : double :=
  round (basePriceOf profile riskScore).

Definition estimatedAnnualOf (profile : UserProfile) (riskScore : double) : double :=
  round (mul (basePriceOf profile riskScore) (lit 12)).

Definition calculateEstimatedPremium (profile : UserProfile) (riskScore : double)
  : jsstring :=
  let estimatedMonthly := estimatedMonthlyOf profile riskScore in
  let estimatedAnnual := estimatedAnnualOf profile riskScore in
  [euro] ++ toString estimatedMonthly
    ++ JS.lit "/month (approximately " ++ [euro]
    ++ toString estimatedAnnual ++ JS.lit "/year)".

End Binary64.

(** *** The premium rules as the specification words them, on doubles *)

(** The optional number is supplied and, as a double, exceeds the
    integer [k]. *)
Definition exceeds64 (x : option Q) (k : Z) : bool :=
  match x with
  | Some v =>
      match Binary64.parse v with
      | Binary64.Fin q => if Qlt_le_dec (inject_Z k) q then true else false
      | Binary64.Inf negative => negb negative
      | Binary64.NaN => false
      end
  | None => false
  end.

(** The optional number is supplied and is not zero. *)
Definition suppliedNonZero (x : option Q) : bool :=
  match x with
  | Some v =>
      match Binary64.parse v with
      | Binary64.Fin q => if Qeq_dec q 0 then false else true
      | Binary64.Inf _ => true
      | Binary64.NaN => false
      end
  | None => false
  end.

(** 80, plus 15 times the risk score, plus a thousandth of the vehicle
    value, plus 20 for a mileage above 30000. *)
Definition specBase64 (profile : UserProfile) (riskScore : Binary64.double)
  : Binary64.double :=
  let base := Binary64.add (Binary64.lit 80) (Binary64.mul (Binary64.lit 15) riskScore) in
  let base :=
    if suppliedNonZero (vehicleValue profile)
    then Binary64.add base
           (Binary64.divBy 1000
              (match vehicleValue profile with
               | Some v => Binary64.parse v
               | None => Binary64.NaN
               end))
    else base in
  if exceeds64 (annualMileage profile) 30000
  then Binary64.add base (Binary64.lit 20)
  else base.

(** The budget cap. *)
Definition specCapped64 (profile : UserProfile) (riskScore : Binary64.double)
  : Binary64.double :=
  let base := specBase64 profile riskScore in
  if option_eq_dec (budgetRange profile) (Some budget50to100)
  then Binary64.min base (Binary64.lit 100)
  else if option_eq_dec (budgetRange profile) (Some budget100to150)
       then Binary64.min base (Binary64.lit 150)
       else base.

(** *** Reading a risk score on doubles *)

(** The double is a non-negative integer. *)
Definition isNatural (x : Binary64.double) : bool :=
  match x with
  | Binary64.Fin q => isNonNegInteger q
  | _ => false
  end.

(** The accident count the accident block reads, if it reads one, is as
    a double a non-negative integer. *)
Definition countedAccidentsNatural64 (profile : UserProfile) : bool :=
  match hasAccidents profile, accidentCount profile with
  | Some true, Some c => isNatural (Binary64.parse c)
  | _, _ => true
  end.

(** The accident count the accident block reads, if it reads one, is as
    a double at most [bound]. *)
Definition countedAccidentsAtMost (bound : Z) (profile : UserProfile) : bool :=
  match hasAccidents profile, accidentCount profile with
  | Some true, Some c =>
      match Binary64.parse c with
      | Binary64.Fin q => Qle_bool q (inject_Z bound)
      | _ => false
      end
  | _, _ => true
  end.

(** The double is a non-negative integer or positive infinity. *)
Definition naturalOrInfinity (x : Binary64.double) : Prop :=
  x = Binary64.Inf false
  \/ exists w : Z, (0 <= w)%Z /\ x = Binary64.Fin (inject_Z w).

(** The double is a non-negative integer and at most [b * 2 ^ 971]. *)
Definition naturalUpTo (b : Z) (x : Binary64.double) : Prop :=
  exists w : Z, (0 <= w <= b * 2 ^ 971)%Z /\ x = Binary64.Fin (inject_Z w).

(** The value [round64] gives to [q] before the test for overflow, with
    the last place at [2 ^ k]. *)
Definition roundedAt (k : Z) (q : Q) : Q :=
  inject_Z (Binary64.rne (q / Binary64.pow2 k)) * Binary64.pow2 k.

(** *** Reading a premium figure on doubles *)

Definition isNaN (x : Binary64.double) : bool :=
  match x with Binary64.NaN => true | _ => false end.

(** [x <= z] for an integer [z]; false for [NaN]. *)
Definition atMost (x : Binary64.double) (z : Z) : bool :=
  match x with
  | Binary64.NaN => false
  | Binary64.Inf negative => negative
  | Binary64.Fin q => Qle_bool q (inject_Z z)
  end.

(** An accident count and a vehicle value that overflow to opposite
    infinities, under the lower budget literal. *)
Definition oppositeInfinities : UserProfile :=
  mkProfile None None None None None (Some true)
    (Some (inject_Z (- 10 ^ 999))) (Some (inject_Z (10 ^ 999)))
    (Some budget50to100).

(** The double is a non-negative integer of at most [bound]. *)
Definition naturalBelow (bound : Z) (x : Binary64.double) : Prop :=
  exists w : Z, (0 <= w <= bound)%Z /\ x = Binary64.Fin (inject_Z w).

(** An accident count of a quarter, and one beyond half the range of
    the doubles. *)
Definition quarterCount : UserProfile := withAccidents (Some (1 # 4)).
Definition hugeCount : UserProfile := withAccidents (Some (inject_Z (10 ^ 308))).

(** An accident count of [2 ^ 52] with a mileage above 30000: the
    accident block brings the accumulator to [2 ^ 53]. *)
Definition absorbedMileage : UserProfile :=
  mkProfile None None None (Some 30001) None (Some true)
    (Some (inject_Z (2 ^ 52))) None None.

(** A vehicle value of 12500 and nothing else: a base price of 92.5. *)
Definition fractionalBase : UserProfile :=
  mkProfile None None None None None None None (Some 12500) None.

(** An accident count that brings twelve times the base beyond
    [2 ^ 53]. *)
Definition largeCount : UserProfile := withAccidents (Some 300000000000001).

(** The double is finite and at most [z] in magnitude. *)
Definition magnitudeAtMost (z : Z) (x : Binary64.double) : bool :=
  match x with
  | Binary64.Fin q => Qle_bool (Qabs q) (inject_Z z)
  | _ => false
  end.

(** * Properties *)

(** ** The comparisons of the source, as propositions *)

Lemma truthy_true (x : Q) : JS.truthy x = true <-> ~ x == 0.
Proof.
  unfold JS.truthy. rewrite negb_true_iff.
  split.
  - intros H E. apply Qeq_bool_iff in E. congruence.
  - intros H. destruct (Qeq_bool x 0) eqn:E; [|reflexivity].
    apply Qeq_bool_iff in E. contradiction.
Qed.

Lemma truthy_false (x : Q) : JS.truthy x = false <-> x == 0.
Proof.
  unfold JS.truthy. rewrite negb_false_iff. apply Qeq_bool_iff.
Qed.

Lemma ltb_true (x y : Q) : JS.ltb x y = true <-> x < y.
Proof.
  unfold JS.ltb. rewrite negb_true_iff. split.
  - intros H. apply Qnot_le_lt. intros L. apply Qle_bool_iff in L. congruence.
  - intros H. destruct (Qle_bool y x) eqn:E; [|reflexivity].
    apply Qle_bool_iff in E. lra.
Qed.

Lemma ltb_false (x y : Q) : JS.ltb x y = false <-> y <= x.
Proof.
  unfold JS.ltb. rewrite negb_false_iff. apply Qle_bool_iff.
Qed.

Lemma gtb_true (x y : Q) : JS.gtb x y = true <-> y < x.
Proof. apply ltb_true. Qed.

Lemma gtb_false (x y : Q) : JS.gtb x y = false <-> x <= y.
Proof. apply ltb_false. Qed.

Lemma geb_true (x y : Q) : JS.geb x y = true <-> y <= x.
Proof. apply Qle_bool_iff. Qed.

Lemma geb_false (x y : Q) : JS.geb x y = false <-> x < y.
Proof.
  unfold JS.geb. split.
  - intros H. apply Qnot_le_lt. intros L. apply Qle_bool_iff in L. congruence.
  - intros H. destruct (Qle_bool y x) eqn:E; [|reflexivity].
    apply Qle_bool_iff in E. lra.
Qed.

Lemma eqb_eq (a b : jsstring) : JS.eqb a b = true <-> a = b.
Proof.
  revert b. induction a as [|x a IH]; intros [|y b]; simpl; split;
    try congruence; try reflexivity.
  - intros H. apply andb_true_iff in H as [Hx Hab].
    apply N.eqb_eq in Hx. apply IH in Hab. congruence.
  - intros H. injection H as -> ->. rewrite N.eqb_refl. simpl. now apply IH.
Qed.

(** Turns the boolean tests of the source found in the goal or met by a
    case analysis into order facts on [Q]. *)
Ltac js_facts :=
  repeat match goal with
    | H : JS.truthy _ = true |- _ => apply truthy_true in H
    | H : JS.truthy _ = false |- _ => apply truthy_false in H
    | H : JS.ltb _ _ = true |- _ => apply ltb_true in H
    | H : JS.ltb _ _ = false |- _ => apply ltb_false in H
    | H : JS.gtb _ _ = true |- _ => apply gtb_true in H
    | H : JS.gtb _ _ = false |- _ => apply gtb_false in H
    | H : JS.geb _ _ = true |- _ => apply geb_true in H
    | H : JS.geb _ _ = false |- _ => apply geb_false in H
    end.

Ltac js_case t := let E := fresh "E" in destruct t eqn:E; js_facts.

(** ** The accident block *)




(** ** The age block *)

(** A supplied age of zero: the chain gives 3 (zero is below 25), the age
    block adds nothing, because [if (profile.age)] is false for it. *)
Lemma age_chain_fails_at_zero :
  age (withAge 0) = Some 0
  /\ ageChain 0 == 3
  /\ scoreAge (withAge 0) 0 - 0 == 0
  /\ ~ (scoreAge (withAge 0) 0 - 0 == ageChain 0).
Proof.
  split; [reflexivity|]. split; [reflexivity|]. split; [reflexivity|].
  intros H. vm_compute in H. discriminate.
Qed.

(** C2, amended.  For a supplied age that is not zero the age block adds
    what the first matching bracket gives: 3 below 25, else 1 below 35,
    else 2 above 70, else nothing (35 to 70 inclusive); a supplied age
    of zero adds nothing, like an absent one.  Age 24 scores exactly 3. *)
Theorem age_term (profile : UserProfile) (a riskScore : Q) :
  age profile = Some a ->
  scoreAge profile riskScore - riskScore == (if Qeq_dec a 0 then 0 else ageChain a)
  /\ (~ a == 0 -> a < 25 -> scoreAge profile riskScore - riskScore == 3)
  /\ (25 <= a -> a < 35 -> scoreAge profile riskScore - riskScore == 1)
  /\ (35 <= a -> a <= 70 -> scoreAge profile riskScore - riskScore == 0)
  /\ (70 < a -> scoreAge profile riskScore - riskScore == 2)
  /\ riskScoreOf (withAge 24) == 3.
Proof.
  intros Hage.
  assert (Hchain : scoreAge profile riskScore - riskScore
                   == (if Qeq_dec a 0 then 0 else ageChain a)).
  { unfold scoreAge, ageChain. rewrite Hage.
    js_case (JS.truthy a).
    - destruct (Qeq_dec a 0) as [Hz|_]; [contradiction|].
      js_case (JS.ltb a 25); [destruct (Qlt_le_dec a 25); lra|].
      js_case (JS.ltb a 35);
        [destruct (Qlt_le_dec a 25); [lra|]; destruct (Qlt_le_dec a 35); lra|].
      js_case (JS.gtb a 70);
        destruct (Qlt_le_dec a 25); try lra;
        destruct (Qlt_le_dec a 35); try lra;
        destruct (Qlt_le_dec 70 a); lra.
    - destruct (Qeq_dec a 0) as [_|Hnz]; [ring|contradiction]. }
  split; [exact Hchain|].
  unfold ageChain in Hchain.
  repeat split; try reflexivity; intros; rewrite Hchain;
    destruct (Qeq_dec a 0); try lra;
    destruct (Qlt_le_dec a 25); try lra;
    destruct (Qlt_le_dec a 35); try lra;
    destruct (Qlt_le_dec 70 a); lra.
Qed.

Lemma age_term_witness :
  age youngDriver = Some 22 /\ scoreAge youngDriver 0 - 0 == 3.
Proof.
  split; [reflexivity|].
  destruct (age_term youngDriver 22 0 eq_refl) as (_ & H & _).
  apply H; [discriminate | reflexivity].
Defined.

(** ** The risk score as a number *)

Lemma isNonNegInteger_natural (x : Q) : isNonNegInteger x = true <-> natural x.
Proof.
  unfold isNonNegInteger, natural. rewrite andb_true_iff, Qle_bool_iff, Qeq_bool_iff.
  split.
  - intros [Hpos Hint]. exists (Qfloor x). split; [|now symmetry].
    change 0%Z with (Qfloor (inject_Z 0)). now apply Qfloor_resp_le.
  - intros (z & Hz & Hx). split.
    + rewrite Hx. change 0 with (inject_Z 0). now rewrite <- Zle_Qle.
    + rewrite Hx at 1. now rewrite Qfloor_Z.
Qed.

Lemma natural_plus (x y : Q) : natural x -> natural y -> natural (x + y).
Proof.
  intros (a & Ha & Hx) (b & Hb & Hy). exists (a + b)%Z. split; [lia|].
  rewrite inject_Z_plus, Hx, Hy. reflexivity.
Qed.

Lemma natural_mult (x y : Q) : natural x -> natural y -> natural (x * y).
Proof.
  intros (a & Ha & Hx) (b & Hb & Hy). exists (a * b)%Z. split; [lia|].
  rewrite inject_Z_mult, Hx, Hy. reflexivity.
Qed.

Lemma natural_Z (z : Z) : (0 <= z)%Z -> natural (inject_Z z).
Proof. intros H. exists z. split; [exact H | reflexivity]. Qed.

Create HintDb natural.
#[local] Hint Resolve natural_plus natural_mult : natural.
#[local] Hint Extern 1 (natural (inject_Z _)) => apply natural_Z; lia : natural.

Lemma natural_lit (n : Z) : (0 <= n)%Z -> natural (n # 1).
Proof. intros H. exists n. split; [exact H | reflexivity]. Qed.

#[local] Hint Extern 1 (natural (_ # 1)) => apply natural_lit; lia : natural.

Lemma scoreAge_natural (profile : UserProfile) (r : Q) :
  natural r -> natural (scoreAge profile r).
Proof.
  intros H. unfold scoreAge.
  destruct (age profile) as [a|]; [|exact H].
  destruct (JS.truthy a), (JS.ltb a 25), (JS.ltb a 35), (JS.gtb a 70);
    auto with natural.
Qed.

Lemma scoreExperience_natural (profile : UserProfile) (r : Q) :
  natural r -> natural (scoreExperience profile r).
Proof.
  intros H. unfold scoreExperience.
  destruct (drivingExperience profile) as [e|]; [|exact H].
  destruct (JS.truthy e), (JS.ltb e 2), (JS.ltb e 5); auto with natural.
Qed.

Lemma scoreMileage_natural (profile : UserProfile) (r : Q) :
  natural r -> natural (scoreMileage profile r).
Proof.
  intros H. unfold scoreMileage.
  destruct (annualMileage profile) as [m|]; [|exact H].
  destruct (JS.truthy m), (JS.gtb m 30000); auto with natural.
Qed.

Lemma scoreAccidents_natural (profile : UserProfile) (r : Q) :
  countedAccidentsNatural profile = true ->
  natural r -> natural (scoreAccidents profile r).
Proof.
  unfold countedAccidentsNatural, scoreAccidents, accidentCountOr1.
  intros Hc H.
  destruct (hasAccidents profile) as [[|]|]; try exact H.
  destruct (accidentCount profile) as [c|]; [|auto with natural].
  apply isNonNegInteger_natural in Hc.
  destruct (JS.truthy c); auto with natural.
Qed.

(** [{hasAccidents: true, accidentCount: -1}] scores [-2]. *)
Lemma risk_score_can_be_negative :
  isNonNegInteger (riskScoreOf negativeCount) = false
  /\ riskScoreOf negativeCount == -2.
Proof. split; reflexivity. Qed.

(** ** The coverage list *)

Lemma presentAndGt_exceeds (x : option Q) (k : Q) :
  0 <= k -> presentAndGt x k = exceeds x k.
Proof.
  intros Hk. unfold presentAndGt, exceeds. destruct x as [v|]; [|reflexivity].
  destruct (Qlt_le_dec k v) as [Hlt|Hle].
  - apply andb_true_iff. split; [apply truthy_true | apply gtb_true]; lra.
  - apply andb_false_iff. right. apply gtb_false. exact Hle.
Qed.

Lemma strictEq_isLiteral (s : option jsstring) (literal : jsstring) :
  strictEq s literal = isLiteral s literal.
Proof.
  unfold strictEq, isLiteral. destruct s as [v|]; [|reflexivity].
  destruct (jsstring_eq_dec v literal) as [->|Hne].
  - now apply eqb_eq.
  - destruct (JS.eqb v literal) eqn:E; [|reflexivity].
    apply eqb_eq in E. contradiction.
Qed.

Lemma isLiteral_true (s : option jsstring) (literal : jsstring) :
  isLiteral s literal = true <-> s = Some literal.
Proof.
  unfold isLiteral. destruct s as [v|]; [|split; discriminate].
  destruct (jsstring_eq_dec v literal) as [->|Hne]; split; congruence.
Qed.

Lemma geb_4 (r : Q) :
  JS.geb r 4 = (if Qlt_le_dec r 4 then false else true).
Proof.
  destruct (Qlt_le_dec r 4) as [Hlt|Hle].
  - now apply geb_false.
  - now apply geb_true.
Qed.

Lemma coveragesFor_spec (profile : UserProfile) (riskScore : Q) :
  coveragesFor profile riskScore = specCoverages profile riskScore.
Proof.
  unfold coveragesFor, specCoverages, push.
  rewrite geb_4, !presentAndGt_exceeds, strictEq_isLiteral by (vm_compute; discriminate).
  destruct (Qlt_le_dec riskScore 4),
    (exceeds (vehicleValue profile) 20000),
    (exceeds (annualMileage profile) 20000),
    (isLiteral (drivingHabits profile) highway); reflexivity.
Qed.

(** C6. The coverage list is the mandatory liability entry, followed by
    the comprehensive and collision pair exactly when the risk score is
    at least 4, the full-coverage and roadside pair exactly when the
    vehicle value exceeds 20000, the breakdown entry exactly when the
    annual mileage exceeds 20000, and the highway pair; nothing is
    removed, so its length is the sum of the lengths of the blocks. *)
Theorem coverages_in_order (profile : UserProfile) :
  recommendedCoveragesOf profile
  = [ThirdPartyLiability]
      ++ (if Qlt_le_dec (riskScoreOf profile) 4 then []
          else [ComprehensiveCoverage; CollisionProtection])
      ++ (if exceeds (vehicleValue profile) 20000
          then [FullCoveragePackage; RoadsideAssistance] else [])
      ++ (if exceeds (annualMileage profile) 20000 then [BreakdownAssistance] else [])
      ++ (if isLiteral (drivingHabits profile) highway
          then [ExtendedCoverage; LegalAssistance] else [])
  /\ hd_error (recommendedCoveragesOf profile) = Some ThirdPartyLiability
  /\ List.length (recommendedCoveragesOf profile)
     = (1 + (if Qlt_le_dec (riskScoreOf profile) 4 then 0 else 2)
        + (if exceeds (vehicleValue profile) 20000 then 2 else 0)
        + (if exceeds (annualMileage profile) 20000 then 1 else 0)
        + (if isLiteral (drivingHabits profile) highway then 2 else 0))%nat
  /\ (scoreMileage profile 0 == 1 <-> exceeds (annualMileage profile) 30000 = true).
Proof.
  unfold recommendedCoveragesOf. rewrite coveragesFor_spec. unfold specCoverages.
  split; [reflexivity|]. split; [reflexivity|]. split.
  - destruct (Qlt_le_dec (riskScoreOf profile) 4),
      (exceeds (vehicleValue profile) 20000),
      (exceeds (annualMileage profile) 20000),
      (isLiteral (drivingHabits profile) highway); reflexivity.
  - unfold scoreMileage, exceeds. destruct (annualMileage profile) as [m|].
    + js_case (JS.truthy m); [js_case (JS.gtb m 30000)|];
        destruct (Qlt_le_dec 30000 m); split; intros H;
        first [reflexivity | discriminate | lra | (vm_compute in H; discriminate)].
    + split; intros H; [vm_compute in H|]; discriminate.
Qed.

(** C3. The extended-coverage and legal-assistance entries are in the
    coverage list if and only if [drivingHabits] is the lower-case
    string [highway]; with [Highway] or the questionnaire's label
    [Highway (long distances)] they are not. *)
Theorem highway_pair_iff (profile : UserProfile) :
  (In ExtendedCoverage (recommendedCoveragesOf profile)
   <-> drivingHabits profile = Some highway)
  /\ (In LegalAssistance (recommendedCoveragesOf profile)
      <-> drivingHabits profile = Some highway)
  /\ ~ In ExtendedCoverage (recommendedCoveragesOf (withHabits profile (JS.lit "Highway")))
  /\ ~ In LegalAssistance (recommendedCoveragesOf (withHabits profile (JS.lit "Highway")))
  /\ ~ In ExtendedCoverage
       (recommendedCoveragesOf (withHabits profile (JS.lit "Highway (long distances)")))
  /\ ~ In LegalAssistance
       (recommendedCoveragesOf (withHabits profile (JS.lit "Highway (long distances)"))).
Proof.
  assert (Hiff : forall p,
             (In ExtendedCoverage (recommendedCoveragesOf p)
              <-> drivingHabits p = Some highway)
             /\ (In LegalAssistance (recommendedCoveragesOf p)
                 <-> drivingHabits p = Some highway)).
  { intros p. unfold recommendedCoveragesOf. rewrite coveragesFor_spec.
    unfold specCoverages. rewrite <- isLiteral_true.
    destruct (Qlt_le_dec (riskScoreOf p) 4),
      (exceeds (vehicleValue p) 20000),
      (exceeds (annualMileage p) 20000),
      (isLiteral (drivingHabits p) highway);
      split; split; intros H; try reflexivity; try discriminate;
      try (simpl; tauto);
      simpl in H; repeat (destruct H as [H|H]; [vm_compute in H; discriminate|]);
      contradiction. }
  split; [apply Hiff|]. split; [apply Hiff|].
  repeat split; intros H; apply Hiff in H; vm_compute in H; discriminate.
Qed.

(** ** The premium *)

Lemma Qmin_eq (x y k : Q) : x == y -> Qmin x k == Qmin y k.
Proof.
  intros H.
  destruct (Q.min_spec x k) as [[Hx ->]|[Hx ->]],
           (Q.min_spec y k) as [[Hy ->]|[Hy ->]]; lra.
Qed.

Lemma addend_vehicleValue (profile : UserProfile) (b : Q) :
  match vehicleValue profile with
  | Some v => if JS.truthy v then b + v / 1000 else b
  | None => b
  end
  == b + match vehicleValue profile with
         | Some v => if Qeq_dec v 0 then 0 else v / 1000
         | None => 0
         end.
Proof.
  destruct (vehicleValue profile) as [v|]; [|ring].
  js_case (JS.truthy v); destruct (Qeq_dec v 0); try contradiction; ring.
Qed.

Lemma addend_mileage (profile : UserProfile) (b : Q) :
  match annualMileage profile with
  | Some m => if JS.truthy m then if JS.gtb m 30000 then b + 20 else b else b
  | None => b
  end
  == b + (if exceeds (annualMileage profile) 30000 then 20 else 0).
Proof.
  unfold exceeds. destruct (annualMileage profile) as [m|]; [|ring].
  js_case (JS.truthy m); [js_case (JS.gtb m 30000)|];
    destruct (Qlt_le_dec 30000 m); lra.
Qed.

Lemma basePriceOf_spec (profile : UserProfile) (riskScore : Q) :
  basePriceOf profile riskScore == specCapped profile riskScore.
Proof.
  unfold basePriceOf, specCapped. cbv zeta. rewrite !strictEq_isLiteral.
  match goal with
  | |- (if _ then JS.min ?b _ else _) == _ =>
      assert (Hbase : b == specBase profile riskScore)
  end.
  { rewrite addend_mileage, addend_vehicleValue. unfold specBase. ring. }
  destruct (isLiteral (budgetRange profile) budget50to100);
    [apply Qmin_eq, Hbase|].
  destruct (isLiteral (budgetRange profile) budget100to150);
    [apply Qmin_eq, Hbase | exact Hbase].
Qed.

Lemma round_spec (x y : Q) : x == y -> JS.round x = specRound y.
Proof.
  intros H. unfold JS.round, specRound. apply Qfloor_comp. rewrite H.
  apply Qplus_comp; reflexivity.
Qed.

(** Under the budget literal of 50 to 100 euros a base above 100 is
    reported as 100 a month and 1200 a year. *)
Lemma capped_at_100 (profile : UserProfile) (riskScore : Q) :
  budgetRange profile = Some budget50to100 ->
  100 <= specBase profile riskScore ->
  estimatedMonthlyOf profile riskScore = 100%Z
  /\ estimatedAnnualOf profile riskScore = 1200%Z.
Proof.
  intros Hbudget Hbase.
  assert (Hcap : basePriceOf profile riskScore == 100).
  { rewrite basePriceOf_spec. unfold specCapped. cbv zeta.
    apply isLiteral_true in Hbudget. rewrite Hbudget.
    destruct (Q.min_spec (specBase profile riskScore) 100) as [[Hlt ->]|[_ ->]]; lra. }
  unfold estimatedMonthlyOf, estimatedAnnualOf, JS.round.
  split; [rewrite Hcap | rewrite Hcap]; reflexivity.
Qed.

Example premium_of_youngDriver :
  riskScoreOf youngDriver == 10
  /\ specBase youngDriver (riskScoreOf youngDriver) == 2755 # 10
  /\ calculateEstimatedPremium youngDriver (riskScoreOf youngDriver)
     = euro :: JS.lit "100/month (approximately "
         ++ euro :: JS.lit "1200/year)".
Proof. repeat split; reflexivity. Qed.

Example premium_keeps_fraction :
  calculateEstimatedPremium (mkProfile None None None None None None None (Some 12500) None) 0
  = euro :: JS.lit "93/month (approximately " ++ euro :: JS.lit "1110/year)".
Proof. reflexivity. Qed.

Lemma round_ge (k : Z) (x : Q) : inject_Z k <= x -> (k <= JS.round x)%Z.
Proof.
  intros H. unfold JS.round. rewrite <- (Qfloor_Z k).
  apply Qfloor_resp_le. lra.
Qed.

Lemma scoreAge_ge (profile : UserProfile) (r : Q) : r <= scoreAge profile r.
Proof.
  unfold scoreAge. destruct (age profile) as [a|]; [|lra].
  destruct (JS.truthy a), (JS.ltb a 25), (JS.ltb a 35), (JS.gtb a 70); lra.
Qed.

Lemma scoreExperience_ge (profile : UserProfile) (r : Q) :
  r <= scoreExperience profile r.
Proof.
  unfold scoreExperience. destruct (drivingExperience profile) as [e|]; [|lra].
  destruct (JS.truthy e), (JS.ltb e 2), (JS.ltb e 5); lra.
Qed.

Lemma scoreMileage_ge (profile : UserProfile) (r : Q) : r <= scoreMileage profile r.
Proof.
  unfold scoreMileage. destruct (annualMileage profile) as [m|]; [|lra].
  destruct (JS.truthy m), (JS.gtb m 30000); lra.
Qed.

Lemma scoreAccidents_ge (profile : UserProfile) (r : Q) :
  nonNegative (accidentCount profile) = true -> r <= scoreAccidents profile r.
Proof.
  unfold nonNegative, scoreAccidents, accidentCountOr1. intros H.
  destruct (hasAccidents profile) as [[|]|]; try lra.
  destruct (accidentCount profile) as [c|]; [|lra].
  apply Qle_bool_iff in H. destruct (JS.truthy c); lra.
Qed.

Lemma riskScoreOf_nonneg (profile : UserProfile) :
  nonNegative (accidentCount profile) = true -> 0 <= riskScoreOf profile.
Proof.
  intros H. unfold riskScoreOf.
  pose proof (scoreAge_ge profile 0) as H1.
  pose proof (scoreExperience_ge profile (scoreAge profile 0)) as H2.
  pose proof (scoreAccidents_ge profile
                (scoreExperience profile (scoreAge profile 0)) H) as H3.
  pose proof (scoreMileage_ge profile
                (scoreAccidents profile
                   (scoreExperience profile (scoreAge profile 0)))) as H4.
  lra.
Qed.

Lemma specCapped_ge_80 (profile : UserProfile) (r : Q) :
  nonNegative (vehicleValue profile) = true -> 0 <= r ->
  80 <= specCapped profile r.
Proof.
  intros Hv Hr.
  assert (Hbase : 80 <= specBase profile r).
  { unfold specBase, nonNegative in *.
    assert (Hvv : 0 <= match vehicleValue profile with
                       | Some v => if Qeq_dec v 0 then 0 else v / 1000
                       | None => 0
                       end).
    { destruct (vehicleValue profile) as [v|]; [|lra].
      apply Qle_bool_iff in Hv. destruct (Qeq_dec v 0); [lra|].
      apply Qle_shift_div_l; lra. }
    destruct (exceeds (annualMileage profile) 30000); lra. }
  unfold specCapped. cbv zeta.
  destruct (isLiteral (budgetRange profile) budget50to100);
    [destruct (Q.min_spec (specBase profile r) 100) as [[_ ->]|[_ ->]]; lra|].
  destruct (isLiteral (budgetRange profile) budget100to150);
    [destruct (Q.min_spec (specBase profile r) 150) as [[_ ->]|[_ ->]]; lra|].
  exact Hbase.
Qed.

(** C10. When every supplied numeric field is non-negative, the monthly
    figure is at least 80 and the annual figure at least 960, under
    either budget cap and without one. *)
Theorem premium_floor (profile : UserProfile) :
  nonNegativeFields profile = true ->
  (80 <= estimatedMonthlyOf profile (riskScoreOf profile))%Z
  /\ (960 <= estimatedAnnualOf profile (riskScoreOf profile))%Z.
Proof.
  unfold nonNegativeFields. rewrite !andb_true_iff.
  intros [[[[_ _] _] Hcount] Hvalue].
  pose proof (specCapped_ge_80 profile (riskScoreOf profile) Hvalue
                (riskScoreOf_nonneg profile Hcount)) as Hcap.
  pose proof (basePriceOf_spec profile (riskScoreOf profile)) as Hspec.
  unfold estimatedMonthlyOf, estimatedAnnualOf.
  split; apply round_ge; rewrite Hspec.
  - exact Hcap.
  - change (inject_Z 960) with (80 * 12). lra.
Qed.

Lemma premium_floor_witness :
  nonNegativeFields youngDriver = true
  /\ (80 <= estimatedMonthlyOf youngDriver (riskScoreOf youngDriver))%Z
  /\ (960 <= estimatedAnnualOf youngDriver (riskScoreOf youngDriver))%Z.
Proof.
  split; [reflexivity|].
  apply (premium_floor youngDriver). reflexivity.
Defined.

(** ** The profile summary *)

(** C9. The [profileSummary] object has the five keys [age],
    [experience], [vehicleType], [riskLevel] and [riskScore], in that
    order, and no other; the first three hold the profile's age, driving
    experience and vehicle type as supplied, [undefined] when the field
    is absent, so that the serialised text has such a key only when the
    field was supplied; none of the six other profile fields is a key. *)
Theorem profile_summary_keys (profile : UserProfile) :
  keys (profileSummary profile)
  = ["age"; "experience"; "vehicleType"; "riskLevel"; "riskScore"]
  /\ getProperty "age" (profileSummary profile) = Some (ofNumber (age profile))
  /\ getProperty "experience" (profileSummary profile)
     = Some (ofNumber (drivingExperience profile))
  /\ getProperty "vehicleType" (profileSummary profile)
     = Some (ofString (vehicleType profile))
  /\ getProperty "riskLevel" (profileSummary profile)
     = Some (JString (riskLevelOf (riskScoreOf profile)))
  /\ getProperty "riskScore" (profileSummary profile)
     = Some (JNumber (riskScoreOf profile))
  /\ Forall (fun k => getProperty k (profileSummary profile) = None
                      /\ ~ In k (keys (profileSummary profile)))
       ["drivingHabits"; "annualMileage"; "hasAccidents"; "accidentCount";
        "vehicleValue"; "budgetRange"]
  /\ keys (writtenFields (profileSummary profile))
     = (match age profile with Some _ => ["age"] | None => [] end)
         ++ (match drivingExperience profile with Some _ => ["experience"] | None => [] end)
         ++ (match vehicleType profile with Some _ => ["vehicleType"] | None => [] end)
         ++ ["riskLevel"; "riskScore"].
Proof.
  change (profileSummary profile)
    with (profileSummaryOf profile (riskScoreOf profile)).
  unfold profileSummaryOf.
  repeat (split; [reflexivity|]).
  split.
  - repeat constructor; simpl; intuition discriminate.
  - destruct (age profile), (drivingExperience profile), (vehicleType profile);
      reflexivity.
Qed.

(** ** Selections *)

Lemma filter_flat_map {A B : Type} (f : B -> bool) (g : A -> list B) (l : list A) :
  filter f (flat_map g l) = flat_map (fun x => filter f (g x)) l.
Proof.
  induction l as [|x l IH]; simpl; [reflexivity|].
  now rewrite filter_app, IH.
Qed.

Lemma flat_map_Forall {A B : Type} (f g : A -> list B) (l : list A) :
  Forall (fun x => f x = g x) l -> flat_map f l = flat_map g l.
Proof.
  induction 1 as [|x l Hx _ IH]; simpl; [reflexivity|].
  now rewrite Hx, IH.
Qed.

(** A selection is the document-order list of nodes, filtered. *)
Lemma select_preorder (sel : selector) (n : node) :
  select sel n = filter (matchedBy sel) (preorder n).
Proof.
  induction n as [data|data|name classes children IH] using node_induction;
    try reflexivity.
  simpl. rewrite filter_flat_map, (flat_map_Forall _ _ _ IH).
  destruct (sel name classes); reflexivity.
Qed.

Lemma selectAll_preorder (sel : selector) (doc : document) :
  selectAll sel doc = filter (matchedBy sel) (flat_map preorder doc).
Proof.
  unfold selectAll. rewrite filter_flat_map.
  apply flat_map_Forall, Forall_forall. intros n _. apply select_preorder.
Qed.

Lemma matchedBy_hasTag (tags : list String.string) (n : node) :
  matchedBy (hasTag tags) n = named tags n.
Proof. destruct n; reflexivity. Qed.

(** The selection of a page has the selection of each of its nodes as a
    segment. *)
Lemma select_segment (sel : selector) (target n : node) :
  subnode target n ->
  exists before after, select sel n = before ++ select sel target ++ after.
Proof.
  induction 1 as [|name classes children child Hin _ (b & a & IH)].
  - exists [], []. now rewrite app_nil_r.
  - apply in_split in Hin as (k1 & k2 & ->).
    exists ((if sel name classes
             then [Element name classes (k1 ++ child :: k2)] else [])
            ++ flat_map (select sel) k1 ++ b),
           (a ++ flat_map (select sel) k2).
    simpl. rewrite flat_map_app. simpl. rewrite IH.
    now rewrite <- !app_assoc.
Qed.

Lemma selectAll_segment (sel : selector) (target : node) (doc : document) :
  inDocument target doc ->
  exists before after, selectAll sel doc = before ++ select sel target ++ after.
Proof.
  intros (root & Hin & Hsub).
  apply in_split in Hin as (d1 & d2 & ->).
  destruct (select_segment sel target root Hsub) as (b & a & IH).
  exists (flat_map (select sel) d1 ++ b), (a ++ flat_map (select sel) d2).
  unfold selectAll. rewrite flat_map_app. simpl. rewrite IH.
  now rewrite <- !app_assoc.
Qed.

(** ** extractText *)

Lemma extractText_loop (l : list node) (paragraphs : list jsstring) :
  fold_left extractTextStep l paragraphs
  = paragraphs ++ filter nonEmpty (List.map trimmedText l).
Proof.
  revert paragraphs. induction l as [|e l IH]; intros paragraphs; simpl.
  - now rewrite app_nil_r.
  - rewrite IH. unfold extractTextStep, push, trimmedText.
    destruct (JS.trim (textContent e)) as [|c text]; simpl; [reflexivity|].
    now rewrite <- app_assoc.
Qed.

Lemma occurrences_app (c : N) (s t : jsstring) :
  occurrences c (s ++ t) = (occurrences c s + occurrences c t)%nat.
Proof. apply count_occ_app. Qed.

Lemma totalOccurrences_app (c : N) (l1 l2 : list jsstring) :
  totalOccurrences c (l1 ++ l2)
  = (totalOccurrences c l1 + totalOccurrences c l2)%nat.
Proof. unfold totalOccurrences. now rewrite map_app, list_sum_app. Qed.

(** Joining loses no occurrence of a code unit. *)
Lemma join_occurrences (c : N) (sep : jsstring) (pieces : list jsstring) :
  (totalOccurrences c pieces <= occurrences c (JS.join sep pieces))%nat.
Proof.
  induction pieces as [|piece rest IH]; [apply Nat.le_refl|].
  destruct rest as [|next rest].
  - unfold totalOccurrences. simpl. lia.
  - change (JS.join sep (piece :: next :: rest))
      with (piece ++ sep ++ JS.join sep (next :: rest)).
    rewrite !occurrences_app.
    change (totalOccurrences c (piece :: next :: rest))
      with (occurrences c piece + totalOccurrences c (next :: rest))%nat.
    lia.
Qed.

(** C8. [extractText] selects the elements whose tag is in the allow
    list, in document order, keeps the trimmed text of each when it is
    not empty, and joins these pieces with a blank line.  Nothing is
    de-duplicated: on a page that contains [<div><p>X</p></div>] the
    piece [X] is there at least twice, and so is the letter in the
    output; that markup alone gives [X], a blank line, [X]. *)
Theorem segmented_text (doc : document) :
  selectAll (hasTag textTags) doc
  = filter (named textTags) (flat_map preorder doc)
  /\ paragraphsOf doc
     = filter nonEmpty (List.map trimmedText (selectAll (hasTag textTags) doc))
  /\ extractText doc = JS.join blankLine (paragraphsOf doc)
  /\ (forall c1 c2,
         inDocument (Element "div" c1 [Element "p" c2 [Text (JS.lit "X")]]) doc ->
         (2 <= piecesEqual (JS.lit "X") (paragraphsOf doc))%nat
         /\ (2 <= occurrences 88 (extractText doc))%nat)
  /\ extractText nestedPage = JS.lit "X" ++ blankLine ++ JS.lit "X".
Proof.
  assert (Hpieces : paragraphsOf doc
            = filter nonEmpty
                (List.map trimmedText (selectAll (hasTag textTags) doc))).
  { unfold paragraphsOf. now rewrite extractText_loop. }
  split.
  { rewrite selectAll_preorder. apply filter_ext. intros n.
    apply matchedBy_hasTag. }
  split; [exact Hpieces|]. split; [reflexivity|]. split; [|reflexivity].
  intros c1 c2 Hin.
  destruct (selectAll_segment (hasTag textTags) _ doc Hin) as (b & a & Hsel).
  assert (Hsplit : exists before after,
             paragraphsOf doc = before ++ [JS.lit "X"; JS.lit "X"] ++ after).
  { exists (filter nonEmpty (List.map trimmedText b)),
           (filter nonEmpty (List.map trimmedText a)).
    rewrite Hpieces, Hsel, !map_app, !filter_app. reflexivity. }
  destruct Hsplit as (before & after & Hp). split.
  - unfold piecesEqual. rewrite Hp, !count_occ_app.
    change (count_occ jsstring_eq_dec [JS.lit "X"; JS.lit "X"] (JS.lit "X"))
      with 2%nat.
    lia.
  - unfold extractText.
    pose proof (join_occurrences 88 blankLine (paragraphsOf doc)) as Hjoin.
    rewrite Hp, !totalOccurrences_app in Hjoin.
    change (totalOccurrences 88 [JS.lit "X"; JS.lit "X"]) with 2%nat in Hjoin.
    rewrite <- Hp in Hjoin. lia.
Qed.

Lemma segmented_text_witness :
  inDocument nestedX nestedPage
  /\ (2 <= piecesEqual (JS.lit "X") (paragraphsOf nestedPage))%nat
  /\ (2 <= occurrences 88 (extractText nestedPage))%nat.
Proof.
  assert (H : inDocument nestedX nestedPage).
  { eexists. split; [left; reflexivity|].
    eapply subnode_child; [right; left; reflexivity|].
    eapply subnode_child; [left; reflexivity|].
    apply subnode_here. }
  split; [exact H|].
  destruct (segmented_text nestedPage) as (_ & _ & _ & Hnested & _).
  exact (Hnested [] [] H).
Defined.

(** ** getRGFPolicyInfo *)

(** The guard [text && text.length > 20]. *)
Lemma long_guard (e : node) :
  JS.truthyString (JS.trim (textContent e))
  && (JS.length (JS.trim (textContent e)) >? 20)%Z
  = longText e.
Proof.
  unfold longText, trimmedText, JS.length.
  destruct (JS.trim (textContent e)) as [|c text]; [reflexivity|].
  cbn [JS.truthyString andb]. apply Z.gtb_ltb.
Qed.

Lemma policyStep_coverageTypes (policyInfo : PolicyInfo) (e : node) :
  coverageTypes (policyStep policyInfo e)
  = coverageTypes policyInfo
      ++ (if longText e && tagIs ["h2"; "h3"] e then [trimmedText e] else []).
Proof.
  unfold policyStep. cbv zeta. rewrite long_guard.
  unfold tagIs. fold (lowerTagName e). cbn [existsb].
  destruct (longText e); [|now rewrite app_nil_r].
  destruct (String.eqb (lowerTagName e) "h2"), (String.eqb (lowerTagName e) "h3");
    try reflexivity;
    destruct (String.eqb (lowerTagName e) "li"); simpl; now rewrite app_nil_r.
Qed.

Lemma policyStep_features (policyInfo : PolicyInfo) (e : node) :
  features (policyStep policyInfo e)
  = features policyInfo
      ++ (if longText e && tagIs ["li"] e then [trimmedText e] else []).
Proof.
  unfold policyStep. cbv zeta. rewrite long_guard.
  unfold tagIs. fold (lowerTagName e). cbn [existsb].
  destruct (longText e); [|now rewrite app_nil_r].
  destruct (String.eqb (lowerTagName e) "h2") eqn:E2.
  - apply String.eqb_eq in E2. rewrite E2. simpl. now rewrite app_nil_r.
  - destruct (String.eqb (lowerTagName e) "h3") eqn:E3.
    + apply String.eqb_eq in E3. rewrite E3. simpl. now rewrite app_nil_r.
    + destruct (String.eqb (lowerTagName e) "li"); simpl;
        [reflexivity | now rewrite app_nil_r].
Qed.

Lemma policyStep_benefits (policyInfo : PolicyInfo) (e : node) :
  benefits (policyStep policyInfo e) = benefits policyInfo.
Proof.
  unfold policyStep. cbv zeta.
  repeat match goal with |- context [if ?b then _ else _] => destruct b end;
    reflexivity.
Qed.

Lemma policy_loop (l : list node) (policyInfo : PolicyInfo) :
  coverageTypes (fold_left policyStep l policyInfo)
  = coverageTypes policyInfo
      ++ List.map trimmedText (filter (fun e => longText e && tagIs ["h2"; "h3"] e) l)
  /\ features (fold_left policyStep l policyInfo)
     = features policyInfo
         ++ List.map trimmedText (filter (fun e => longText e && tagIs ["li"] e) l)
  /\ benefits (fold_left policyStep l policyInfo) = benefits policyInfo.
Proof.
  revert policyInfo. induction l as [|e l IH]; intros policyInfo.
  - cbn [fold_left filter List.map]. now rewrite !app_nil_r.
  - cbn [fold_left filter].
    destruct (IH (policyStep policyInfo e)) as (Hc & Hf & Hb).
    rewrite Hc, Hf, Hb, policyStep_coverageTypes, policyStep_features,
      policyStep_benefits.
    destruct (longText e && tagIs ["h2"; "h3"] e),
      (longText e && tagIs ["li"] e);
      cbn [List.map]; rewrite <- ?app_assoc, ?app_nil_r; auto.
Qed.

(** What [find] returns carries one of the four scanned tag names. *)
Lemma findIn_named (outer : selector) (tags : list String.string) (n : node) :
  forall inside,
    Forall (fun e => named tags e = true) (findIn outer (hasTag tags) inside n).
Proof.
  induction n as [data|data|name classes children IH] using node_induction;
    intros inside; try constructor.
  cbn [findIn]. apply Forall_app. split.
  - destruct (inside && hasTag tags name classes) eqn:E; [|constructor].
    apply andb_true_iff in E as [_ E]. constructor; [exact E | constructor].
  - generalize (inside || outer name classes). intros inside'.
    induction IH as [|child children Hchild _ IHc]; simpl; [constructor|].
    apply Forall_app. split; [apply Hchild | exact IHc].
Qed.

Lemma findAll_named (doc : document) :
  Forall (fun e => named ["h2"; "h3"; "li"; "p"] e = true)
    (findAll isContainer isScanned doc).
Proof.
  unfold findAll, isScanned. induction doc as [|n doc IH]; simpl; [constructor|].
  apply Forall_app. split; [apply findIn_named | exact IH].
Qed.

(** On a scanned element the callback's tag test is a test on the
    element's own name. *)
Lemma tagIs_named (tags : list String.string) (e : node) :
  named ["h2"; "h3"; "li"; "p"] e = true -> tagIs tags e = named tags e.
Proof.
  destruct e as [data|data|name classes children]; try discriminate.
  intros H. cbn [named existsb] in H.
  rewrite !orb_true_iff, !String.eqb_eq in H.
  destruct H as [->|[->|[->|[->|H]]]]; try reflexivity. discriminate.
Qed.

Lemma filter_Forall_ext {A : Type} (f g : A -> bool) (P : A -> Prop) (l : list A) :
  (forall x, P x -> f x = g x) -> Forall P l -> filter f l = filter g l.
Proof.
  intros Hfg H. apply filter_ext_in. intros x Hx.
  apply Hfg. rewrite Forall_forall in H. now apply H.
Qed.

(** C7. With the elements [find] returns below the containers:
    [coverageTypes] is the trimmed texts of those named [h2] or [h3]
    whose trimmed text has more than twenty code units, [features] those
    of the elements named [li] under the same condition, both in
    document order; an element named [p] leaves the record as it was,
    whatever its text; [benefits] is empty. *)
Theorem policy_info_classification (doc : document) :
  coverageTypes (getRGFPolicyInfo doc)
  = List.map trimmedText
      (filter (fun e => longText e && named ["h2"; "h3"] e)
         (findAll isContainer isScanned doc))
  /\ features (getRGFPolicyInfo doc)
     = List.map trimmedText
         (filter (fun e => longText e && named ["li"] e)
            (findAll isContainer isScanned doc))
  /\ benefits (getRGFPolicyInfo doc) = []
  /\ (forall policyInfo classes children,
         policyStep policyInfo (Element "p" classes children) = policyInfo)
  /\ (exists e, In e (findAll isContainer isScanned policyPage)
                /\ named ["p"] e = true /\ longText e = true
                /\ ~ In (trimmedText e) (coverageTypes (getRGFPolicyInfo policyPage))
                /\ ~ In (trimmedText e) (features (getRGFPolicyInfo policyPage))).
Proof.
  unfold getRGFPolicyInfo. cbv zeta. cbn [coverageTypes features benefits].
  match goal with
  | |- context [fold_left policyStep ?l ?st] =>
      destruct (policy_loop l st) as (Hc & Hf & Hb)
  end.
  rewrite Hc, Hf, Hb. cbn [coverageTypes features benefits app].
  pose proof (findAll_named doc) as Hnamed.
  split; [|split; [|split; [reflexivity|split]]].
  - f_equal. apply (filter_Forall_ext _ _ _ _ (fun e He => f_equal (andb (longText e)) (tagIs_named _ e He)) Hnamed).
  - f_equal. apply (filter_Forall_ext _ _ _ _ (fun e He => f_equal (andb (longText e)) (tagIs_named _ e He)) Hnamed).
  - intros policyInfo classes children. unfold policyStep. cbv zeta.
    destruct (_ && _); reflexivity.
  - exists (Element "p" []
              [Text (JS.lit "This paragraph is long enough to pass the filter")]).
    split; [vm_compute; tauto|]. split; [reflexivity|]. split; [reflexivity|].
    split; intros H; vm_compute in H; intuition discriminate.
Qed.

Example policyPage_info :
  coverageTypes (getRGFPolicyInfo policyPage)
  = [JS.lit "Comprehensive car insurance"]
  /\ features (getRGFPolicyInfo policyPage)
     = [JS.lit "Roadside assistance in all of Europe"]
  /\ benefits (getRGFPolicyInfo policyPage) = [].
Proof. repeat split; reflexivity. Qed.

(** * Further properties of the recommendation engine *)

(** ** The experience block and the score as a sum *)

(** X1. The experience block adds 2 below two years, else 1 below five years,
    else nothing; zero years of experience is falsy and adds nothing,
    like an absent answer. *)
Theorem experience_term (profile : UserProfile) (e riskScore : Q) :
  drivingExperience profile = Some e ->
  (e == 0 -> scoreExperience profile riskScore == riskScore)
  /\ (~ e == 0 -> e < 2 -> scoreExperience profile riskScore == riskScore + 2)
  /\ (2 <= e -> e < 5 -> scoreExperience profile riskScore == riskScore + 1)
  /\ (5 <= e -> scoreExperience profile riskScore == riskScore).
Proof.
  intros He. unfold scoreExperience. rewrite He.
  js_case (JS.truthy e); [js_case (JS.ltb e 2); [|js_case (JS.ltb e 5)]|];
    repeat split; intros; try reflexivity; try contradiction; lra.
Qed.

Lemma experience_term_witness :
  drivingExperience youngDriver = Some 1
  /\ scoreExperience youngDriver 3 == 3 + 2.
Proof.
  split; [reflexivity|].
  destruct (experience_term youngDriver 1 3 eq_refl) as (_ & H & _).
  apply H; [discriminate | reflexivity].
Defined.

Lemma scoreAge_from_0 (profile : UserProfile) (r : Q) :
  scoreAge profile r == r + scoreAge profile 0.
Proof.
  unfold scoreAge. destruct (age profile) as [a|]; [|ring].
  destruct (JS.truthy a), (JS.ltb a 25), (JS.ltb a 35), (JS.gtb a 70); ring.
Qed.

Lemma scoreExperience_from_0 (profile : UserProfile) (r : Q) :
  scoreExperience profile r == r + scoreExperience profile 0.
Proof.
  unfold scoreExperience. destruct (drivingExperience profile) as [e|]; [|ring].
  destruct (JS.truthy e), (JS.ltb e 2), (JS.ltb e 5); ring.
Qed.

Lemma scoreAccidents_from_0 (profile : UserProfile) (r : Q) :
  scoreAccidents profile r == r + scoreAccidents profile 0.
Proof.
  unfold scoreAccidents. destruct (hasAccidents profile) as [[|]|]; ring.
Qed.

Lemma scoreMileage_from_0 (profile : UserProfile) (r : Q) :
  scoreMileage profile r == r + scoreMileage profile 0.
Proof.
  unfold scoreMileage. destruct (annualMileage profile) as [m|]; [|ring].
  destruct (JS.truthy m), (JS.gtb m 30000); ring.
Qed.

Lemma riskScoreOf_sum (profile : UserProfile) :
  riskScoreOf profile
  == scoreAge profile 0 + scoreExperience profile 0
     + scoreAccidents profile 0 + scoreMileage profile 0.
Proof.
  unfold riskScoreOf.
  rewrite scoreMileage_from_0, scoreAccidents_from_0, scoreExperience_from_0.
  ring.
Qed.

Lemma scoreAge_0_range (profile : UserProfile) :
  0 <= scoreAge profile 0 <= 3.
Proof.
  unfold scoreAge. destruct (age profile) as [a|]; [|lra].
  destruct (JS.truthy a), (JS.ltb a 25), (JS.ltb a 35), (JS.gtb a 70); lra.
Qed.

Lemma scoreExperience_0_range (profile : UserProfile) :
  0 <= scoreExperience profile 0 <= 2.
Proof.
  unfold scoreExperience. destruct (drivingExperience profile) as [e|]; [|lra].
  destruct (JS.truthy e), (JS.ltb e 2), (JS.ltb e 5); lra.
Qed.

Lemma scoreMileage_0_range (profile : UserProfile) :
  0 <= scoreMileage profile 0 <= 1.
Proof.
  unfold scoreMileage. destruct (annualMileage profile) as [m|]; [|lra].
  destruct (JS.truthy m), (JS.gtb m 30000); lra.
Qed.

(** X3. Age, experience and mileage contribute at most 6 together; without
    an accident history ([hasAccidents] not true) the risk score is an
    integer between 0 and 6, whatever the other fields hold. *)
Theorem risk_score_range (profile : UserProfile) :
  hasAccidents profile <> Some true ->
  0 <= riskScoreOf profile <= 6
  /\ isNonNegInteger (riskScoreOf profile) = true
  /\ riskScoreOf profile == scoreWithoutAccidents profile.
Proof.
  intros Hacc.
  assert (Hzero : scoreAccidents profile 0 == 0).
  { unfold scoreAccidents. destruct (hasAccidents profile) as [[|]|];
      [contradiction | reflexivity | reflexivity]. }
  pose proof (riskScoreOf_sum profile) as Hsum.
  pose proof (scoreAge_0_range profile).
  pose proof (scoreExperience_0_range profile).
  pose proof (scoreMileage_0_range profile).
  split; [lra|]. split.
  - apply isNonNegInteger_natural. unfold riskScoreOf.
    apply scoreMileage_natural, scoreAccidents_natural.
    + unfold countedAccidentsNatural.
      destruct (hasAccidents profile) as [[|]|]; [contradiction | reflexivity | reflexivity].
    + apply scoreExperience_natural, scoreAge_natural. auto with natural.
  - unfold riskScoreOf, scoreWithoutAccidents.
    rewrite scoreMileage_from_0, scoreAccidents_from_0.
    rewrite (scoreMileage_from_0 profile (scoreExperience _ _)). lra.
Qed.

Lemma risk_score_range_witness :
  hasAccidents (withAge 24) <> Some true
  /\ 0 <= riskScoreOf (withAge 24) <= 6.
Proof.
  assert (H : hasAccidents (withAge 24) <> Some true) by discriminate.
  split; [exact H|].
  apply (risk_score_range (withAge 24) H).
Defined.

(** ** The risk level and the coverage list *)

Lemma riskLevel_cases (r : Q) :
  (r <= 2 /\ riskLevelOf r = JS.lit "Low")
  \/ (2 < r /\ r <= 4 /\ riskLevelOf r = JS.lit "Medium")
  \/ (4 < r /\ riskLevelOf r = JS.lit "High").
Proof.
  unfold riskLevelOf, JS.leb.
  destruct (Qle_bool r 2) eqn:E2.
  - apply Qle_bool_iff in E2. left. split; [exact E2 | reflexivity].
  - assert (H2 : 2 < r).
    { apply Qnot_le_lt. intros L. apply Qle_bool_iff in L. congruence. }
    destruct (Qle_bool r 4) eqn:E4.
    + apply Qle_bool_iff in E4. right. left. repeat split; assumption.
    + right. right. split; [|reflexivity].
      apply Qnot_le_lt. intros L. apply Qle_bool_iff in L. congruence.
Qed.

(** Finishes a goal from an equation between two different literals. *)
Ltac distinct_literals H := vm_compute in H; discriminate H.

Lemma comprehensive_iff (profile : UserProfile) (r : Q) :
  (In ComprehensiveCoverage (coveragesFor profile r) <-> 4 <= r)
  /\ (In CollisionProtection (coveragesFor profile r) <-> 4 <= r).
Proof.
  rewrite coveragesFor_spec. unfold specCoverages.
  destruct (Qlt_le_dec r 4),
    (exceeds (vehicleValue profile) 20000),
    (exceeds (annualMileage profile) 20000),
    (isLiteral (drivingHabits profile) highway);
    split; split; intros H; try lra; try (simpl; tauto);
    simpl in H; repeat (destruct H as [H|H]; [distinct_literals H|]);
    contradiction.
Qed.

(** X4. When the summary's risk level is High the comprehensive and
    collision entries are recommended, when it is Low they are not;
    at Medium they are recommended exactly for a score of 4 or more. *)
Theorem level_and_coverage (profile : UserProfile) :
  (riskLevelOf (riskScoreOf profile) = JS.lit "High" ->
   In ComprehensiveCoverage (recommendedCoveragesOf profile)
   /\ In CollisionProtection (recommendedCoveragesOf profile))
  /\ (riskLevelOf (riskScoreOf profile) = JS.lit "Low" ->
      ~ In ComprehensiveCoverage (recommendedCoveragesOf profile)
      /\ ~ In CollisionProtection (recommendedCoveragesOf profile))
  /\ (riskLevelOf (riskScoreOf profile) = JS.lit "Medium" ->
      (In ComprehensiveCoverage (recommendedCoveragesOf profile)
       <-> 4 <= riskScoreOf profile)
      /\ 2 < riskScoreOf profile <= 4).
Proof.
  unfold recommendedCoveragesOf.
  destruct (comprehensive_iff profile (riskScoreOf profile)) as [Hc Hk].
  destruct (riskLevel_cases (riskScoreOf profile))
    as [[Hr Hl]|[(Hr & Hr' & Hl)|[Hr Hl]]]; rewrite Hl;
    (split; [|split]); intros H; try distinct_literals H.
  - rewrite Hc, Hk. split; lra.
  - split; [exact Hc | split; assumption].
  - rewrite Hc, Hk. split; lra.
Qed.

Lemma level_and_coverage_witness :
  riskLevelOf (riskScoreOf youngDriver) = JS.lit "High"
  /\ In ComprehensiveCoverage (recommendedCoveragesOf youngDriver)
  /\ In CollisionProtection (recommendedCoveragesOf youngDriver).
Proof.
  split; [reflexivity|].
  destruct (level_and_coverage youngDriver) as [H _].
  apply H. reflexivity.
Defined.

(** X5. The coverage list never holds the same entry twice, although
    nothing removes duplicates, and it has between one and eight
    entries. *)
Theorem coverages_distinct (profile : UserProfile) :
  NoDup (recommendedCoveragesOf profile)
  /\ (1 <= List.length (recommendedCoveragesOf profile) <= 8)%nat.
Proof.
  unfold recommendedCoveragesOf. rewrite coveragesFor_spec. unfold specCoverages.
  destruct (Qlt_le_dec (riskScoreOf profile) 4),
    (exceeds (vehicleValue profile) 20000),
    (exceeds (annualMileage profile) 20000),
    (isLiteral (drivingHabits profile) highway);
    (split; [|simpl; lia]);
    cbn [app];
    repeat (apply NoDup_cons;
            [simpl; intros H;
             repeat (destruct H as [H|H]; [distinct_literals H|]); exact H|]);
    apply NoDup_nil.
Qed.



(** ** The premium figures *)

Lemma round_le (k : Z) (x : Q) : x <= inject_Z k -> (JS.round x <= k)%Z.
Proof.
  intros H. unfold JS.round.
  pose proof (Qfloor_le (x + (1 # 2))) as Hfloor.
  apply Z.lt_succ_r. rewrite Zlt_Qlt. unfold Z.succ. rewrite inject_Z_plus.
  change (inject_Z 1) with 1. lra.
Qed.

Lemma round_integer (z : Z) (x : Q) : x == inject_Z z -> JS.round x = z.
Proof.
  intros H. apply Z.le_antisymm.
  - apply round_le. lra.
  - apply round_ge. lra.
Qed.




(** X11. A vehicle worth 20000 euros or more together with the budget answer
    of 50 to 100 euros always gives the same text, 100 euros a month and
    1200 a year, whatever the risk: the cap hides the score. *)
Theorem expensive_car_small_budget (profile : UserProfile) (v : Q) :
  vehicleValue profile = Some v -> 20000 <= v ->
  budgetRange profile = Some budget50to100 ->
  nonNegative (accidentCount profile) = true ->
  calculateEstimatedPremium profile (riskScoreOf profile)
  = euro :: JS.lit "100/month (approximately " ++ euro :: JS.lit "1200/year)".
Proof.
  intros Hv Hlarge Hbudget Hcount.
  pose proof (riskScoreOf_nonneg profile Hcount) as Hr.
  assert (Hbase : 100 <= specBase profile (riskScoreOf profile)).
  { unfold specBase. rewrite Hv.
    assert (Hthousands : 20 <= v / 1000) by (apply Qle_shift_div_l; lra).
    destruct (Qeq_dec v 0); [lra|].
    destruct (exceeds (annualMileage profile) 30000); lra. }
  destruct (capped_at_100 profile _ Hbudget Hbase) as [Hm Ha].
  unfold calculateEstimatedPremium. cbv zeta. rewrite Hm, Ha. reflexivity.
Qed.

Lemma expensive_car_small_budget_witness :
  vehicleValue youngDriver = Some 25500 /\ 20000 <= 25500
  /\ budgetRange youngDriver = Some budget50to100
  /\ nonNegative (accidentCount youngDriver) = true
  /\ calculateEstimatedPremium youngDriver (riskScoreOf youngDriver)
     = euro :: JS.lit "100/month (approximately " ++ euro :: JS.lit "1200/year)".
Proof.
  assert (H : 20000 <= 25500) by (vm_compute; discriminate).
  split; [reflexivity|]. split; [exact H|].
  split; [reflexivity|]. split; [reflexivity|].
  apply (expensive_car_small_budget youngDriver 25500); try reflexivity.
  exact H.
Defined.

(** ** The questionnaire and the engine *)


Lemma strictEq_withBudget (profile : UserProfile) (o literal : jsstring) :
  isLiteral (budgetRange (withBudget profile o)) literal = true <-> o = literal.
Proof.
  rewrite isLiteral_true. cbn [withBudget budgetRange]. split; congruence.
Qed.



(** * Further properties of the extractors *)

(** ** What [trim] leaves *)

Lemma trimStart_clean (s : jsstring) : startsClean (JS.trimStart s) = true.
Proof.
  induction s as [|c s IH]; [reflexivity|].
  simpl. destruct (JS.isWhiteSpace c) eqn:E; [exact IH|].
  simpl. now rewrite E.
Qed.

Lemma trimStart_split (s : jsstring) :
  exists a, s = a ++ JS.trimStart s /\ forallb JS.isWhiteSpace a = true.
Proof.
  induction s as [|c s (a & Hs & Ha)]; [exists []; split; reflexivity|].
  simpl. destruct (JS.isWhiteSpace c) eqn:E.
  - exists (c :: a). split; [simpl; now rewrite <- Hs | simpl; now rewrite E].
  - exists []. split; reflexivity.
Qed.

Lemma trimStart_snoc (s : jsstring) (c : N) :
  JS.isWhiteSpace c = false -> JS.trimStart (s ++ [c]) = JS.trimStart s ++ [c].
Proof.
  intros Hc. induction s as [|x s IH]; simpl.
  - now rewrite Hc.
  - destruct (JS.isWhiteSpace x); [exact IH | reflexivity].
Qed.

Lemma trimEnd_endsClean (s : jsstring) : endsClean (JS.trimEnd s) = true.
Proof.
  unfold endsClean, JS.trimEnd. rewrite rev_involutive. apply trimStart_clean.
Qed.

Lemma trimEnd_startsClean (s : jsstring) :
  startsClean s = true -> startsClean (JS.trimEnd s) = true.
Proof.
  destruct s as [|c s]; [reflexivity|].
  simpl. intros Hc. apply negb_true_iff in Hc.
  unfold JS.trimEnd. simpl. rewrite (trimStart_snoc _ _ Hc), rev_app_distr.
  simpl. now rewrite Hc.
Qed.

Lemma trimEnd_split (s : jsstring) :
  exists b, s = JS.trimEnd s ++ b /\ forallb JS.isWhiteSpace b = true.
Proof.
  destruct (trimStart_split (rev s)) as (a & Hs & Ha).
  exists (rev a). split.
  - unfold JS.trimEnd. rewrite <- rev_app_distr, <- Hs. symmetry. apply rev_involutive.
  - rewrite forallb_forall in *. intros x Hx. apply Ha. now apply in_rev.
Qed.

Lemma trim_split (s : jsstring) :
  exists a b, s = a ++ JS.trim s ++ b
              /\ forallb JS.isWhiteSpace a = true
              /\ forallb JS.isWhiteSpace b = true.
Proof.
  destruct (trimStart_split s) as (a & Hs & Ha).
  destruct (trimEnd_split (JS.trimStart s)) as (b & Ht & Hb).
  exists a, b. split; [|split; assumption].
  unfold JS.trim. now rewrite <- Ht.
Qed.

Lemma trim_clean (s : jsstring) :
  startsClean (JS.trim s) = true /\ endsClean (JS.trim s) = true.
Proof.
  unfold JS.trim. split.
  - apply trimEnd_startsClean, trimStart_clean.
  - apply trimEnd_endsClean.
Qed.

(** ** extractText *)

Lemma paragraphsOf_filter (doc : document) :
  paragraphsOf doc
  = filter nonEmpty (List.map trimmedText (selectAll (hasTag textTags) doc)).
Proof. unfold paragraphsOf. now rewrite extractText_loop. Qed.

(** X13. Every piece [extractText] joins is not empty, neither starts nor
    ends with white space, and is the text of a selected element with
    nothing but white space taken off at its two ends. *)
Theorem pieces_are_trimmed_texts (doc : document) (piece : jsstring) :
  In piece (paragraphsOf doc) ->
  piece <> []
  /\ startsClean piece = true /\ endsClean piece = true
  /\ exists element before after,
       In element (selectAll (hasTag textTags) doc)
       /\ named textTags element = true
       /\ textContent element = before ++ piece ++ after
       /\ forallb JS.isWhiteSpace before = true
       /\ forallb JS.isWhiteSpace after = true.
Proof.
  rewrite paragraphsOf_filter, filter_In, in_map_iff.
  intros [(element & Htext & Hin) Hne]. subst piece.
  split; [intros H; unfold trimmedText in *; rewrite H in Hne; discriminate|].
  destruct (trim_clean (textContent element)) as [Hs He].
  split; [exact Hs|]. split; [exact He|].
  destruct (trim_split (textContent element)) as (a & b & Hsplit & Ha & Hb).
  exists element, a, b. split; [exact Hin|]. split.
  - rewrite selectAll_preorder, filter_In in Hin.
    rewrite <- matchedBy_hasTag. apply Hin.
  - repeat split; assumption.
Qed.

Lemma pieces_are_trimmed_texts_witness :
  In (JS.lit "X") (paragraphsOf nestedPage)
  /\ JS.lit "X" <> [] /\ startsClean (JS.lit "X") = true.
Proof.
  assert (H : In (JS.lit "X") (paragraphsOf nestedPage)) by (vm_compute; tauto).
  split; [exact H|].
  destruct (pieces_are_trimmed_texts nestedPage (JS.lit "X") H) as (Hne & Hs & _).
  split; assumption.
Defined.

Lemma join_nil (sep : jsstring) (pieces : list jsstring) :
  Forall (fun s => s <> []) pieces ->
  JS.join sep pieces = [] -> pieces = [].
Proof.
  intros Hall Hjoin. destruct pieces as [|piece rest]; [reflexivity|].
  exfalso. inversion Hall as [|? ? Hne _]; subst.
  destruct rest as [|next rest]; [exact (Hne Hjoin)|].
  change (JS.join sep (piece :: next :: rest))
    with (piece ++ sep ++ JS.join sep (next :: rest)) in Hjoin.
  apply app_eq_nil in Hjoin as [Hnil _]. exact (Hne Hnil).
Qed.

(** X14. The output of [extractText] is the empty string exactly when no
    selected element has text other than white space; in particular on a
    page without any element of the allow list. *)
Theorem extractText_empty_iff (doc : document) :
  (extractText doc = []
   <-> forall element,
         In element (selectAll (hasTag textTags) doc) -> trimmedText element = [])
  /\ (selectAll (hasTag textTags) doc = [] -> extractText doc = []).
Proof.
  assert (Hiff : extractText doc = []
     <-> forall element,
         In element (selectAll (hasTag textTags) doc) -> trimmedText element = []).
  { unfold extractText. rewrite paragraphsOf_filter. split.
    - intros Hjoin element Hin.
      apply join_nil in Hjoin.
      + destruct (trimmedText element) as [|c s] eqn:E; [reflexivity|].
        assert (Hp : In (trimmedText element)
                       (filter nonEmpty
                          (List.map trimmedText (selectAll (hasTag textTags) doc)))).
        { apply filter_In. split; [now apply in_map | now rewrite E]. }
        rewrite Hjoin in Hp. contradiction.
      + apply Forall_forall. intros s Hs. apply filter_In in Hs as [_ Hs].
        intros ->. discriminate.
    - intros Hall.
      induction (selectAll (hasTag textTags) doc) as [|e l IH]; [reflexivity|].
      simpl. rewrite (Hall e (or_introl eq_refl)). simpl.
      apply IH. intros element Hin. apply Hall. now right. }
  split; [exact Hiff|].
  intros Hnone. apply Hiff. rewrite Hnone. intros element [].
Qed.

Lemma extractText_empty_iff_witness :
  selectAll (hasTag textTags) [Text (JS.lit "loose text")] = []
  /\ extractText [Text (JS.lit "loose text")] = [].
Proof.
  split; [reflexivity|].
  destruct (extractText_empty_iff [Text (JS.lit "loose text")]) as [_ H].
  apply H. reflexivity.
Defined.

(** ** getRGFPolicyInfo *)

Lemma disjoint_filters {A : Type} (f g : A -> bool) (l : list A) :
  (forall x, f x = true -> g x = false) ->
  (List.length (filter f l) + List.length (filter g l) <= List.length l)%nat.
Proof.
  intros Hfg. induction l as [|x l IH]; simpl; [lia|].
  destruct (f x) eqn:Ef.
  - rewrite (Hfg x Ef). simpl. lia.
  - destruct (g x); simpl; lia.
Qed.

Lemma tagIs_disjoint (e : node) :
  tagIs ["h2"; "h3"] e = true -> tagIs ["li"] e = false.
Proof.
  unfold tagIs. cbn [existsb]. rewrite !orb_false_r.
  rewrite orb_true_iff, !String.eqb_eq. intros [->| ->]; reflexivity.
Qed.

(** X15. Every entry of [coverageTypes] and of [features] has more than
    twenty code units and neither starts nor ends with white space; the
    two lists together have at most as many entries as [find] returned
    elements. *)
Theorem policy_entries_are_long (doc : document) :
  Forall (fun s => (20 < JS.length s)%Z
                   /\ startsClean s = true /\ endsClean s = true)
    (coverageTypes (getRGFPolicyInfo doc) ++ features (getRGFPolicyInfo doc))
  /\ (List.length (coverageTypes (getRGFPolicyInfo doc))
      + List.length (features (getRGFPolicyInfo doc))
      <= List.length (findAll isContainer isScanned doc))%nat.
Proof.
  unfold getRGFPolicyInfo. cbv zeta. cbn [coverageTypes features].
  match goal with
  | |- context [fold_left policyStep ?l ?st] =>
      destruct (policy_loop l st) as (Hc & Hf & _)
  end.
  rewrite Hc, Hf. cbn [coverageTypes features app].
  split.
  - apply Forall_app. split; apply Forall_forall; intros s Hs;
      apply in_map_iff in Hs as (e & <- & He);
      apply filter_In in He as [_ He];
      apply andb_true_iff in He as [Hlong _];
      (split; [unfold longText in Hlong; unfold JS.length; lia
              | apply trim_clean]).
  - rewrite !length_map.
    apply disjoint_filters. intros e He.
    apply andb_true_iff in He as [_ He].
    apply andb_false_iff. right. now apply tagIs_disjoint.
Qed.

Lemma findIn_without_container (outer inner : selector) (n : node) :
  select outer n = [] -> findIn outer inner false n = [].
Proof.
  induction n as [data|data|name classes children IH] using node_induction;
    try reflexivity.
  cbn [select findIn]. intros H. apply app_eq_nil in H as [Hself Hkids].
  destruct (outer name classes); [discriminate|]. cbn [andb orb app].
  induction IH as [|child children Hchild _ IHc]; [reflexivity|].
  simpl in Hkids. apply app_eq_nil in Hkids as [Hc Hrest].
  simpl. rewrite (Hchild Hc). now apply IHc.
Qed.

(** X16. On a page without any [section], [article], [.content] or
    [.policy-details] element nothing is scanned: [coverageTypes] and
    [features] are empty, whatever headings and list items the page
    has. *)
Theorem no_container_no_entries (doc : document) :
  selectAll isContainer doc = [] ->
  findAll isContainer isScanned doc = []
  /\ coverageTypes (getRGFPolicyInfo doc) = []
  /\ features (getRGFPolicyInfo doc) = [].
Proof.
  intros Hnone.
  assert (Hfind : findAll isContainer isScanned doc = []).
  { unfold findAll, selectAll in *.
    induction doc as [|n doc IH]; [reflexivity|].
    simpl in Hnone. apply app_eq_nil in Hnone as [Hn Hdoc].
    simpl. rewrite (findIn_without_container _ _ _ Hn). now apply IH. }
  split; [exact Hfind|].
  unfold getRGFPolicyInfo. cbv zeta. rewrite Hfind. split; reflexivity.
Qed.

Lemma no_container_no_entries_witness :
  selectAll isContainer nestedPage = []
  /\ coverageTypes (getRGFPolicyInfo nestedPage) = [].
Proof.
  split; [reflexivity|].
  destruct (no_container_no_entries nestedPage) as (_ & H & _);
    [reflexivity | exact H].
Defined.

(** ** browsePage and the body text *)

Lemma substring0_length (n : Z) (s : jsstring) :
  (0 <= n)%Z -> JS.length (JS.substring0 n s) = Z.min n (JS.length s).
Proof.
  intros Hn. unfold JS.length, JS.substring0. rewrite length_firstn. lia.
Qed.

Lemma substring0_prefix (n : Z) (s : jsstring) : prefixOf (JS.substring0 n s) s.
Proof.
  exists (skipn (Z.to_nat n) s). unfold JS.substring0.
  symmetry. apply firstn_skipn.
Qed.

Lemma substring0_twice (n m : Z) (s : jsstring) :
  (0 <= n <= m)%Z ->
  JS.substring0 n (JS.substring0 m s) = JS.substring0 n s.
Proof.
  intros H. unfold JS.substring0. rewrite firstn_firstn. f_equal. lia.
Qed.

Lemma substring0_startsClean (n : Z) (s : jsstring) :
  startsClean s = true -> startsClean (JS.substring0 n s) = true.
Proof.
  unfold JS.substring0. destruct s as [|c s]; [now rewrite firstn_nil|].
  destruct (Z.to_nat n); [reflexivity | exact (fun H => H)].
Qed.

(** X17. [browsePage] without the HTML returns at most 10000 code units, a
    prefix of the trimmed body text that does not start with white
    space, and the whole of it when it is not longer; with the HTML, the
    envelope's [text_content] is the first 5000 code units of that same
    result and [html_preview] the first 3000 code units of the markup as
    fetched. *)
Theorem browsePage_limits (data : jsstring) (doc : document) :
  exists text content preview,
    browsePage data doc false = BrowseText text
    /\ envelopeString "text_content" (browsePage data doc true) = Some content
    /\ envelopeString "html_preview" (browsePage data doc true) = Some preview
    /\ JS.length text = Z.min 10000 (JS.length (bodyText doc))
    /\ prefixOf text (bodyText doc)
    /\ startsClean text = true
    /\ ((JS.length (bodyText doc) <= 10000)%Z -> text = bodyText doc)
    /\ content = JS.substring0 5000 text
    /\ JS.length content = Z.min 5000 (JS.length (bodyText doc))
    /\ prefixOf preview data
    /\ JS.length preview = Z.min 3000 (JS.length data).
Proof.
  exists (JS.substring0 10000 (bodyText doc)),
         (JS.substring0 5000 (bodyText doc)),
         (JS.substring0 3000 data).
  split; [reflexivity|]. split; [reflexivity|]. split; [reflexivity|].
  split; [apply substring0_length; lia|].
  split; [apply substring0_prefix|].
  split; [apply substring0_startsClean, trim_clean|].
  split.
  { unfold JS.length, JS.substring0. intros H. apply firstn_all2. lia. }
  split; [symmetry; apply substring0_twice; lia|].
  split; [apply substring0_length; lia|].
  split; [apply substring0_prefix | apply substring0_length; lia].
Qed.

Lemma browsePage_limits_witness :
  (JS.length (bodyText nestedPage) <= 10000)%Z
  /\ browsePage [] nestedPage false = BrowseText (bodyText nestedPage).
Proof.
  assert (H : (JS.length (bodyText nestedPage) <= 10000)%Z) by (vm_compute; discriminate).
  split; [exact H|].
  destruct (browsePage_limits [] nestedPage)
    as (text & content & preview & Hb & _ & _ & _ & _ & _ & Hall & _).
  rewrite Hb. f_equal. apply Hall. exact H.
Defined.

(** X18. [fullDetails] of the policy information is the first 8000 code
    units of what [browsePage] returns for the same page, and never
    longer than that, with or without a container on the page. *)
Theorem fullDetails_of_browsePage (data : jsstring) (doc : document) :
  (exists text,
      browsePage data doc false = BrowseText text
      /\ fullDetails (getRGFPolicyInfo doc) = JS.substring0 8000 text)
  /\ (JS.length (fullDetails (getRGFPolicyInfo doc)) <= 8000)%Z
  /\ prefixOf (fullDetails (getRGFPolicyInfo doc)) (bodyText doc).
Proof.
  assert (Hfull : fullDetails (getRGFPolicyInfo doc)
                  = JS.substring0 8000 (bodyText doc)) by reflexivity.
  rewrite Hfull. split; [|split].
  - exists (JS.substring0 10000 (bodyText doc)).
    split; [reflexivity|]. symmetry. apply substring0_twice. lia.
  - rewrite substring0_length by lia. lia.
  - apply substring0_prefix.
Qed.

(** ** getPageMetadata *)

Lemma headings_loop (l : list node) (acc : list jsstring) :
  fold_left headingsStep l acc
  = acc ++ filter nonEmpty (List.map trimmedText l).
Proof.
  revert acc. induction l as [|e l IH]; intros acc; simpl.
  - now rewrite app_nil_r.
  - rewrite IH. unfold headingsStep, push, trimmedText.
    destruct (JS.trim (textContent e)) as [|c text]; simpl; [reflexivity|].
    now rewrite <- app_assoc.
Qed.

Lemma subsequence_refl {A : Type} (l : list A) : subsequence l l.
Proof. induction l; constructor; assumption. Qed.

Lemma subsequence_filter {A : Type} (f : A -> bool) (l : list A) :
  subsequence (filter f l) l.
Proof.
  induction l as [|x l IH]; simpl; [constructor|].
  destruct (f x); constructor; exact IH.
Qed.

Lemma subsequence_map {A B : Type} (f : A -> B) (l1 l2 : list A) :
  subsequence l1 l2 -> subsequence (List.map f l1) (List.map f l2).
Proof. induction 1; simpl; constructor; assumption. Qed.

Lemma subsequence_filter_both {A : Type} (f : A -> bool) (l1 l2 : list A) :
  subsequence l1 l2 -> subsequence (filter f l1) (filter f l2).
Proof.
  induction 1 as [|x l1 l2 _ IH|x l1 l2 _ IH]; simpl.
  - constructor.
  - destruct (f x); [constructor|]; exact IH.
  - destruct (f x); [constructor|]; exact IH.
Qed.

Lemma subsequence_In {A : Type} (l1 l2 : list A) (x : A) :
  subsequence l1 l2 -> In x l1 -> In x l2.
Proof.
  induction 1 as [|y l1 l2 _ IH|y l1 l2 _ IH]; simpl; intuition.
Qed.

Lemma filter_twice {A : Type} (f g : A -> bool) (l : list A) :
  (forall x, f x = true -> g x = true) ->
  filter f l = filter f (filter g l).
Proof.
  intros Hfg. induction l as [|x l IH]; simpl; [reflexivity|].
  destruct (f x) eqn:Ef.
  - rewrite (Hfg x Ef). simpl. now rewrite Ef, IH.
  - destruct (g x); simpl; [now rewrite Ef|]; exact IH.
Qed.

Lemma heading_is_text_tag (n : node) :
  named headingTags n = true -> named textTags n = true.
Proof.
  destruct n as [data|data|name classes children]; try discriminate.
  cbn [named headingTags textTags existsb].
  rewrite !orb_true_iff. tauto.
Qed.

Lemma headings_selected_among_text (doc : document) :
  subsequence (selectAll (hasTag headingTags) doc) (selectAll (hasTag textTags) doc).
Proof.
  rewrite !selectAll_preorder.
  rewrite (filter_ext _ _ (matchedBy_hasTag headingTags)).
  rewrite (filter_ext _ _ (matchedBy_hasTag textTags)).
  rewrite (filter_twice _ _ _ heading_is_text_tag).
  apply subsequence_filter.
Qed.

(** X19. The headings [getPageMetadata] reports are pieces of the text
    [extractText] returns for the same page, in the same order: the list
    of headings is the list of pieces with some of them left out. *)
Theorem headings_among_pieces (page : list html) :
  subsequence (headings (getPageMetadata page))
    (paragraphsOf (List.map forget page))
  /\ (forall heading,
         In heading (headings (getPageMetadata page)) ->
         In heading (paragraphsOf (List.map forget page)))
  /\ (List.length (headings (getPageMetadata page))
      <= List.length (selectAll (hasTag headingTags) (List.map forget page)))%nat.
Proof.
  assert (Hh : headings (getPageMetadata page)
               = filter nonEmpty
                   (List.map trimmedText
                      (selectAll (hasTag headingTags) (List.map forget page)))).
  { unfold getPageMetadata. cbv zeta. cbn [headings]. now rewrite headings_loop. }
  assert (Hsub : subsequence (headings (getPageMetadata page))
                   (paragraphsOf (List.map forget page))).
  { rewrite Hh, paragraphsOf_filter.
    apply subsequence_filter_both, subsequence_map, headings_selected_among_text. }
  split; [exact Hsub|]. split.
  - intros heading. now apply subsequence_In.
  - rewrite Hh. etransitivity; [apply filter_length_le|]. now rewrite length_map.
Qed.

Lemma headings_among_pieces_witness :
  In (JS.lit "Cover") (headings (getPageMetadata linkedPage))
  /\ In (JS.lit "Cover") (paragraphsOf (List.map forget linkedPage)).
Proof.
  assert (H : In (JS.lit "Cover") (headings (getPageMetadata linkedPage))).
  { vm_compute. tauto. }
  split; [exact H|].
  destruct (headings_among_pieces linkedPage) as (_ & Hin & _).
  apply Hin. exact H.
Defined.

Lemma orElse_nonempty (s : option jsstring) (fallback : jsstring) :
  fallback <> [] -> orElse s fallback <> [].
Proof.
  intros Hf. unfold orElse. destruct s as [[|c v]|]; simpl; try exact Hf.
  discriminate.
Qed.

(** X20. The title and the description of the metadata are never empty: the
    title is the text of the [title] elements, or [No title found] when
    there is none or it is empty; the description is the [content] of
    the first [meta] element named [description], or [No description]
    when there is no such element, or its [content] is missing or
    empty. *)
Theorem metadata_fallbacks (page : list html) :
  meta_title (getPageMetadata page) <> []
  /\ meta_description (getPageMetadata page) <> []
  /\ (let text := textOfAll (selectAll (hasTag ["title"]) (List.map forget page)) in
      (text <> [] /\ meta_title (getPageMetadata page) = text)
      \/ (text = [] /\ meta_title (getPageMetadata page) = JS.lit "No title found"))
  /\ (let content :=
        attr "content"
          (hselectAll (tagWithAttrib "meta" "name" (JS.lit "description")) page) in
      (exists c, content = Some c /\ c <> []
                 /\ meta_description (getPageMetadata page) = c)
      \/ ((content = None \/ content = Some [])
          /\ meta_description (getPageMetadata page) = JS.lit "No description"))
  /\ meta_url (getPageMetadata page) = TARGET_URL.
Proof.
  unfold getPageMetadata. cbv zeta. cbn [meta_title meta_description meta_url].
  split; [|split; [|split; [|split; [|reflexivity]]]].
  - unfold textOrElse.
    destruct (textOfAll _) as [|c s]; simpl; discriminate.
  - apply orElse_nonempty. discriminate.
  - unfold textOrElse.
    destruct (textOfAll _) as [|c s]; simpl.
    + right. split; reflexivity.
    + left. split; [discriminate | reflexivity].
  - unfold orElse.
    destruct (attr "content" _) as [[|c s]|]; simpl.
    + right. split; [right|]; reflexivity.
    + left. exists (c :: s). repeat split. discriminate.
    + right. split; [left|]; reflexivity.
Qed.

Lemma links_loop (l : list html) (acc : list jsstring) :
  fold_left linksStep l acc
  = acc ++ filter nonEmpty
             (flat_map (fun e => match attr "href" [e] with
                                 | Some h => [h]
                                 | None => []
                                 end) l).
Proof.
  revert acc. induction l as [|e l IH]; intros acc; cbn [fold_left flat_map].
  - cbn [filter]. now rewrite app_nil_r.
  - rewrite IH, filter_app. unfold linksStep, push.
    destruct (attr "href" [e]) as [[|c h]|];
      cbn [filter nonEmpty JS.truthyString app]; try reflexivity.
    now rewrite <- app_assoc.
Qed.

Lemma hrefs_of_selection (n : html) :
  flat_map (fun e => match attr "href" [e] with
                     | Some h => [h]
                     | None => []
                     end)
    (hselect (tagHavingAttrib "a" "href") n)
  = hrefsBelow n.
Proof.
  induction n as [data|data|name classes attribs children IH] using html_induction;
    try reflexivity.
  cbn [hselect hrefsBelow]. rewrite flat_map_app. f_equal.
  - unfold tagHavingAttrib.
    destruct (String.eqb name "a"); [|reflexivity].
    cbn [andb]. destruct (getAttrib "href" attribs) eqn:E; [|reflexivity].
    cbn [flat_map attr]. rewrite E. reflexivity.
  - induction IH as [|child children Hchild _ IHc]; [reflexivity|].
    cbn [flat_map]. now rewrite flat_map_app, Hchild, IHc.
Qed.

(** X21. [links] is the list of the [href] values of the page's anchors in
    document order, the empty ones left out: an anchor without [href] or
    with an empty one adds nothing, equal values are all kept, and
    nothing is resolved or checked. *)
Theorem links_are_hrefs (page : list html) :
  links (getPageMetadata page) = filter nonEmpty (flat_map hrefsBelow page)
  /\ Forall (fun link => link <> []) (links (getPageMetadata page))
  /\ (List.length (links (getPageMetadata page))
      <= List.length (hselectAll (tagHavingAttrib "a" "href") page))%nat
  /\ links (getPageMetadata linkedPage) = [JS.lit "/quote"; JS.lit "/quote"].
Proof.
  assert (Hlinks : links (getPageMetadata page)
                   = filter nonEmpty (flat_map hrefsBelow page)).
  { unfold getPageMetadata. cbv zeta. cbn [links]. rewrite links_loop.
    cbn [app]. f_equal. unfold hselectAll.
    induction page as [|n page IH]; [reflexivity|].
    cbn [flat_map]. now rewrite flat_map_app, hrefs_of_selection, IH. }
  split; [exact Hlinks|]. split; [|split; [|reflexivity]].
  - rewrite Hlinks. apply Forall_forall. intros link Hin.
    apply filter_In in Hin as [_ Hne]. intros ->. discriminate.
  - unfold getPageMetadata. cbv zeta. cbn [links]. rewrite links_loop. cbn [app].
    etransitivity; [apply filter_length_le|].
    induction (hselectAll (tagHavingAttrib "a" "href") page) as [|e l IH];
      [apply Nat.le_refl|].
    cbn [flat_map]. rewrite length_app.
    destruct (attr "href" [e]); cbn [List.length]; lia.
Qed.

(** * The engine on binary64 *)

(** ** The premium *)

Lemma Qmult_comm_eq (p q : Q) : (p * q)%Q = (q * p)%Q.
Proof.
  destruct p as [a b], q as [c d]. unfold Qmult. cbn [Qnum Qden].
  now rewrite Z.mul_comm, Pos.mul_comm.
Qed.

Lemma mul_comm64 (x y : Binary64.double) : Binary64.mul x y = Binary64.mul y x.
Proof.
  destruct x as [|a|p], y as [|b|q]; cbn [Binary64.mul]; try reflexivity.
  - now rewrite xorb_comm.
  - destruct (Qeq_bool q 0); [reflexivity | now rewrite xorb_comm].
  - destruct (Qeq_bool p 0); [reflexivity | now rewrite xorb_comm].
  - now rewrite Qmult_comm_eq.
Qed.

Lemma truthy_suppliedNonZero (v : Q) :
  Binary64.truthy (Binary64.parse v) = suppliedNonZero (Some v).
Proof.
  unfold suppliedNonZero.
  destruct (Binary64.parse v) as [|a|q]; cbn [Binary64.truthy]; try reflexivity.
  destruct (Qeq_dec q 0) as [Hz|Hnz].
  - now apply truthy_false.
  - now apply truthy_true.
Qed.

Lemma gtb_exceeds64 (m : Q) (k : Z) :
  (0 <= k)%Z ->
  Binary64.truthy (Binary64.parse m)
  && Binary64.gtb (Binary64.parse m) (Binary64.lit k)
  = exceeds64 (Some m) k.
Proof.
  intros Hk. unfold exceeds64, Binary64.gtb, Binary64.lit.
  destruct (Binary64.parse m) as [|a|q];
    cbn [Binary64.truthy Binary64.ltb andb]; try reflexivity.
  assert (H0 : 0 <= inject_Z k).
  { change 0 with (inject_Z 0). now rewrite <- Zle_Qle. }
  destruct (Qlt_le_dec (inject_Z k) q) as [Hlt|Hle].
  - apply andb_true_iff. split; [apply truthy_true | apply ltb_true]; lra.
  - apply andb_false_iff. right. now apply ltb_false.
Qed.

Lemma basePriceOf64_spec (profile : UserProfile) (riskScore : Binary64.double) :
  Binary64.basePriceOf profile riskScore = specCapped64 profile riskScore.
Proof.
  unfold Binary64.basePriceOf, specCapped64, specBase64, Binary64.number.
  cbv zeta. rewrite (mul_comm64 riskScore).
  assert (Hbudget : forall literal,
             strictEq (budgetRange profile) literal
             = if option_eq_dec (budgetRange profile) (Some literal)
               then true else false).
  { intros literal. rewrite strictEq_isLiteral.
    destruct (option_eq_dec (budgetRange profile) (Some literal)) as [E|E].
    - now apply isLiteral_true.
    - destruct (isLiteral (budgetRange profile) literal) eqn:L; [|reflexivity].
      apply isLiteral_true in L. contradiction. }
  rewrite !Hbudget.
  assert (Hvehicle :
    match option_map Binary64.parse (vehicleValue profile) with
    | Some v =>
        if Binary64.truthy v
        then Binary64.add
               (Binary64.add (Binary64.lit 80)
                  (Binary64.mul (Binary64.lit 15) riskScore))
               (Binary64.divBy 1000 v)
        else Binary64.add (Binary64.lit 80)
               (Binary64.mul (Binary64.lit 15) riskScore)
    | None => Binary64.add (Binary64.lit 80)
                (Binary64.mul (Binary64.lit 15) riskScore)
    end
    = if suppliedNonZero (vehicleValue profile)
      then Binary64.add
             (Binary64.add (Binary64.lit 80)
                (Binary64.mul (Binary64.lit 15) riskScore))
             (Binary64.divBy 1000
                match vehicleValue profile with
                | Some v => Binary64.parse v
                | None => Binary64.NaN
                end)
      else Binary64.add (Binary64.lit 80)
             (Binary64.mul (Binary64.lit 15) riskScore)).
  { destruct (vehicleValue profile) as [v|]; [|reflexivity].
    cbn [option_map]. now rewrite truthy_suppliedNonZero. }
  rewrite Hvehicle.
  set (base := if suppliedNonZero (vehicleValue profile) then _ else _).
  assert (Hmileage :
    match option_map Binary64.parse (annualMileage profile) with
    | Some m =>
        if Binary64.truthy m
        then if Binary64.gtb m (Binary64.lit 30000)
             then Binary64.add base (Binary64.lit 20) else base
        else base
    | None => base
    end
    = if exceeds64 (annualMileage profile) 30000
      then Binary64.add base (Binary64.lit 20) else base).
  { destruct (annualMileage profile) as [m|]; [|reflexivity].
    cbn [option_map].
    rewrite <- (gtb_exceeds64 m 30000) by discriminate.
    destruct (Binary64.truthy (Binary64.parse m)),
      (Binary64.gtb (Binary64.parse m) (Binary64.lit 30000)); reflexivity. }
  rewrite Hmileage.
  destruct (option_eq_dec (budgetRange profile) (Some budget50to100));
    [reflexivity|].
  destruct (option_eq_dec (budgetRange profile) (Some budget100to150));
    reflexivity.
Qed.

(** C4. On doubles, as the code computes: the premium text is the euro
    sign, the monthly figure, [/month (approximately ], the euro sign,
    the annual figure and [/year)].  The base is 80 plus 15 times the
    risk score, plus the vehicle value divided by 1000 (kept as it is,
    not rounded to an integer) when the value is supplied and not zero,
    plus 20 when the annual mileage exceeds 30000; it is capped at 100
    exactly for the budget literal of 50 to 100 euros and at 150 exactly
    for that of 100 to 150 euros, and not capped otherwise.  The monthly
    figure is [Math.round] of the capped base, the annual figure
    [Math.round] of twelve times the capped base, each printed as
    JavaScript prints a number. *)
Theorem premium_formula (profile : UserProfile) (riskScore : Binary64.double) :
  Binary64.calculateEstimatedPremium profile riskScore
  = [euro] ++ Binary64.toString (Binary64.round (specCapped64 profile riskScore))
      ++ JS.lit "/month (approximately " ++ [euro]
      ++ Binary64.toString
           (Binary64.round
              (Binary64.mul (specCapped64 profile riskScore) (Binary64.lit 12)))
      ++ JS.lit "/year)"
  /\ Binary64.estimatedMonthlyOf profile riskScore
     = Binary64.round (specCapped64 profile riskScore)
  /\ Binary64.estimatedAnnualOf profile riskScore
     = Binary64.round
         (Binary64.mul (specCapped64 profile riskScore) (Binary64.lit 12)).
Proof.
  unfold Binary64.calculateEstimatedPremium, Binary64.estimatedMonthlyOf,
    Binary64.estimatedAnnualOf.
  cbv zeta. rewrite basePriceOf64_spec. repeat split; reflexivity.
Qed.

(** An accident count of 0.15 doubles to a score of 0.3, whose fifteen-
    fold rounds to 4.5: the base is 84.5 and the month costs 85. *)
Example premium_rounds_half_up :
  Binary64.riskScoreOf (withAccidents (Some (15 # 100)))
  = Binary64.parse (3 # 10)
  /\ Binary64.basePriceOf (withAccidents (Some (15 # 100)))
       (Binary64.riskScoreOf (withAccidents (Some (15 # 100))))
     = Binary64.Fin (169 # 2)
  /\ Binary64.calculateEstimatedPremium (withAccidents (Some (15 # 100)))
       (Binary64.riskScoreOf (withAccidents (Some (15 # 100))))
     = euro :: JS.lit "85/month (approximately " ++ euro :: JS.lit "1014/year)".
Proof. vm_compute. repeat split; reflexivity. Qed.

(** Beyond 2 ^ 53 the product by twelve is rounded, and the figures are
    printed with the fewest digits that read back as the same double. *)
Example premium_of_large_count :
  Binary64.calculateEstimatedPremium (withAccidents (Some 300000000000001))
    (Binary64.riskScoreOf (withAccidents (Some 300000000000001)))
  = euro :: JS.lit "9000000000000110/month (approximately "
      ++ euro :: JS.lit "108000000000001310/year)".
Proof. vm_compute. reflexivity. Qed.

(** From 10 ^ 21 on a number is printed with an exponent; an infinite
    one by name. *)
Example premium_in_exponent_form :
  Binary64.toString (Binary64.parse (inject_Z (10 ^ 21))) = JS.lit "1e+21"
  /\ Binary64.toString (Binary64.parse (inject_Z (10 ^ 21 - 131072)))
     = JS.lit "999999999999999900000"
  /\ Binary64.calculateEstimatedPremium hugeCount (Binary64.riskScoreOf hugeCount)
     = euro :: JS.lit "Infinity/month (approximately "
         ++ euro :: JS.lit "Infinity/year)".
Proof. vm_compute. repeat split; reflexivity. Qed.

(** ** Rounding an integer to a double *)

Lemma pow2_nonneg (k : Z) : (0 <= k)%Z -> Binary64.pow2 k = inject_Z (2 ^ k).
Proof.
  intros H. unfold Binary64.pow2. apply Z.leb_le in H. now rewrite H.
Qed.

Lemma pow2_inverse (k : Z) :
  (k <= 0)%Z -> Binary64.pow2 k * inject_Z (2 ^ (- k)) == 1.
Proof.
  intros H. unfold Binary64.pow2.
  destruct (0 <=? k)%Z eqn:E.
  - apply Z.leb_le in E. assert (k = 0%Z) as -> by lia. reflexivity.
  - assert (Hpos : (0 < 2 ^ (- k))%Z) by (apply Z.pow_pos_nonneg; lia).
    destruct (2 ^ (- k))%Z as [|p|p]; try lia.
    unfold Qeq, Qmult, inject_Z. cbn [Qnum Qden Z.to_pos]. lia.
Qed.

Lemma pow2_positive (k : Z) : 0 < Binary64.pow2 k.
Proof.
  unfold Binary64.pow2. destruct (0 <=? k)%Z eqn:E; [|reflexivity].
  apply Z.leb_le in E. change 0 with (inject_Z 0). rewrite <- Zlt_Qlt.
  apply Z.pow_pos_nonneg; lia.
Qed.

Lemma rne_comp (q q' : Q) : q == q' -> Binary64.rne q = Binary64.rne q'.
Proof.
  intros H. unfold Binary64.rne.
  rewrite (Qfloor_comp _ _ H).
  assert (Hc : Qcompare (q - inject_Z (Qfloor q')) (1 # 2)
               = Qcompare (q' - inject_Z (Qfloor q')) (1 # 2)).
  { apply Qcompare_comp; [now rewrite H | reflexivity]. }
  now rewrite Hc.
Qed.

Lemma rne_Z (z : Z) : Binary64.rne (inject_Z z) = z.
Proof.
  unfold Binary64.rne. rewrite Qfloor_Z.
  assert (Hc : Qcompare (inject_Z z - inject_Z z) (1 # 2) = Lt).
  { rewrite <- Qlt_alt. lra. }
  now rewrite Hc.
Qed.

Lemma rne_above_floor (q : Q) : (Qfloor q <= Binary64.rne q)%Z.
Proof.
  unfold Binary64.rne.
  destruct (Qcompare _ _); [destruct (Z.even _)| |]; lia.
Qed.

(** An integer above [q] is above the integer nearest to [q]. *)
Lemma rne_le (q : Q) (b : Z) : q <= inject_Z b -> (Binary64.rne q <= b)%Z.
Proof.
  intros H.
  assert (Hf : (Qfloor q <= b)%Z).
  { rewrite <- (Qfloor_Z b). now apply Qfloor_resp_le. }
  destruct (Z.eq_dec (Qfloor q) b) as [E|E].
  - unfold Binary64.rne.
    assert (Hc : Qcompare (q - inject_Z (Qfloor q)) (1 # 2) = Lt).
    { rewrite <- Qlt_alt. rewrite E. lra. }
    rewrite Hc. lia.
  - unfold Binary64.rne.
    destruct (Qcompare _ _); [destruct (Z.even _)| |]; lia.
Qed.

Lemma rne_nonneg (q : Q) : 0 <= q -> (0 <= Binary64.rne q)%Z.
Proof.
  intros H. etransitivity; [|apply rne_above_floor].
  change 0%Z with (Qfloor (inject_Z 0)). now apply Qfloor_resp_le.
Qed.

Lemma Qred_inject_Z (w : Z) : Qred (inject_Z w) = inject_Z w.
Proof. apply Qred_identity. cbn [Qnum Qden inject_Z]. apply Z.gcd_1_r. Qed.

Lemma pow2_reciprocal (k : Z) :
  (k <= 0)%Z -> / Binary64.pow2 k == inject_Z (2 ^ (- k)).
Proof.
  intros Hk.
  pose proof (pow2_inverse k Hk) as Hinv.
  pose proof (pow2_positive k) as Hpos.
  assert (Hnz : ~ Binary64.pow2 k == 0) by lra.
  rewrite <- (Qmult_1_l (inject_Z (2 ^ (- k)))).
  rewrite <- (Qmult_inv_r _ Hnz), (Qmult_comm (Binary64.pow2 k)).
  rewrite <- Qmult_assoc, Hinv. ring.
Qed.

(** With the last place at or below the units, an integer is kept. *)
Lemma roundedAt_fine (k z : Z) :
  (k <= 0)%Z -> roundedAt k (inject_Z z) == inject_Z z.
Proof.
  intros Hk. unfold roundedAt.
  pose proof (pow2_inverse k Hk) as Hinv.
  pose proof (pow2_positive k) as Hpos.
  pose proof (pow2_reciprocal k Hk) as Hi.
  assert (Hq : inject_Z z / Binary64.pow2 k == inject_Z (z * 2 ^ (- k))).
  { unfold Qdiv. now rewrite Hi, inject_Z_mult. }
  rewrite (rne_comp _ _ Hq), rne_Z, inject_Z_mult.
  rewrite <- Qmult_assoc, (Qmult_comm (inject_Z (2 ^ (- k)))), Hinv. ring.
Qed.

(** With the last place above the units, the rounded value is a multiple
    of it. *)
Lemma roundedAt_coarse (k z : Z) :
  (0 <= k)%Z ->
  roundedAt k (inject_Z z)
  = inject_Z (Binary64.rne (inject_Z z / inject_Z (2 ^ k)) * 2 ^ k).
Proof.
  intros Hk. unfold roundedAt. now rewrite (pow2_nonneg k Hk), inject_Z_mult.
Qed.

Lemma roundedAt_natural (k z : Z) :
  (0 <= z)%Z ->
  exists w : Z, (0 <= w)%Z /\ roundedAt k (inject_Z z) == inject_Z w.
Proof.
  intros Hz. destruct (Z_le_gt_dec k 0) as [Hk|Hk].
  - exists z. split; [exact Hz | now apply roundedAt_fine].
  - rewrite roundedAt_coarse by lia.
    eexists. split; [|reflexivity].
    apply Z.mul_nonneg_nonneg; [|apply Z.pow_nonneg; lia].
    apply rne_nonneg. apply Qle_shift_div_l.
    + change 0 with (inject_Z 0). rewrite <- Zlt_Qlt. apply Z.pow_pos_nonneg; lia.
    + rewrite Qmult_0_l. change 0 with (inject_Z 0). now rewrite <- Zle_Qle.
Qed.

Lemma round64_unfold (q : Q) :
  Binary64.round64 q
  = if Qeq_bool q 0 then Binary64.Fin 0
    else if Qle_bool (Binary64.pow2 1024) (Qabs (roundedAt (Binary64.quantum q) q))
         then Binary64.Inf (negb (Qle_bool 0 q))
         else Binary64.Fin (Qred (roundedAt (Binary64.quantum q) q)).
Proof. reflexivity. Qed.

(** The double nearest to a non-negative integer is a non-negative
    integer, or positive infinity. *)
Lemma round64_natural (z : Z) :
  (0 <= z)%Z -> naturalOrInfinity (Binary64.round64 (inject_Z z)).
Proof.
  intros Hz. rewrite round64_unfold.
  destruct (Qeq_bool (inject_Z z) 0); [right; exists 0%Z; split; [lia | reflexivity]|].
  destruct (roundedAt_natural (Binary64.quantum (inject_Z z)) z Hz) as (w & Hw & Hv).
  destruct (Qle_bool _ _).
  - left. assert (Hs : Qle_bool 0 (inject_Z z) = true).
    { apply Qle_bool_iff. change 0 with (inject_Z 0). now rewrite <- Zle_Qle. }
    now rewrite Hs.
  - right. exists w. split; [exact Hw|].
    now rewrite (Qred_complete _ _ Hv), Qred_inject_Z.
Qed.

Lemma quantum_of_natural (z n : Z) :
  (0 < z < 2 ^ n)%Z -> (Binary64.quantum (inject_Z z) <= Z.max (n - 53) (-1074))%Z.
Proof.
  intros [Hpos Hlt].
  assert (Hlog : (Z.log2 z < n)%Z) by (apply Z.log2_lt_pow2; assumption).
  unfold Binary64.quantum, Binary64.ilog2.
  assert (Habs : Qabs (inject_Z z) = inject_Z z).
  { unfold Qabs, inject_Z. now rewrite Z.abs_eq by lia. }
  rewrite Habs. cbn [Qnum Qden inject_Z].
  change (Z.log2 1) with 0%Z.
  destruct (Qle_bool _ _); lia.
Qed.

(** Below [2 ^ 1024] a multiple of [2 ^ 971] is a double, so that
    rounding a smaller integer does not pass it. *)
Lemma round64_upTo (z b : Z) :
  (0 <= z <= b * 2 ^ 971)%Z -> (b * 2 ^ 971 < 2 ^ 1024)%Z ->
  naturalUpTo b (Binary64.round64 (inject_Z z)).
Proof.
  intros [Hz Hzb] Hb. rewrite round64_unfold.
  destruct (Qeq_bool (inject_Z z) 0) eqn:E0.
  { exists 0%Z. split; [lia | reflexivity]. }
  assert (Hpos : (0 < z)%Z).
  { destruct (Z.eq_dec z 0) as [->|]; [discriminate E0 | lia]. }
  pose proof (quantum_of_natural z 1024
                (conj Hpos (Z.le_lt_trans _ _ _ Hzb Hb))) as Hk.
  change (Z.max (1024 - 53) (-1074)) with 971%Z in Hk.
  set (k := Binary64.quantum (inject_Z z)) in *.
  assert (Hw : exists w : Z, (0 <= w <= b * 2 ^ 971)%Z
                             /\ roundedAt k (inject_Z z) == inject_Z w).
  { destruct (Z_le_gt_dec k 0) as [Hk0|Hk0].
    - exists z. split; [lia | now apply roundedAt_fine].
    - rewrite roundedAt_coarse by lia.
      assert (H2k : (0 < 2 ^ k)%Z) by (apply Z.pow_pos_nonneg; lia).
      assert (Hsplit : (2 ^ 971 = 2 ^ (971 - k) * 2 ^ k)%Z).
      { rewrite <- Z.pow_add_r by lia. f_equal. lia. }
      eexists. split; [|reflexivity]. split.
      + apply Z.mul_nonneg_nonneg; [|lia].
        apply rne_nonneg. apply Qle_shift_div_l.
        * change 0 with (inject_Z 0). now rewrite <- Zlt_Qlt.
        * rewrite Qmult_0_l. change 0 with (inject_Z 0). now rewrite <- Zle_Qle.
      + rewrite Hsplit, Z.mul_assoc.
        apply Z.mul_le_mono_nonneg_r; [lia|].
        apply rne_le. apply Qle_shift_div_r.
        * change 0 with (inject_Z 0). now rewrite <- Zlt_Qlt.
        * rewrite <- inject_Z_mult, <- Zle_Qle, <- Z.mul_assoc, <- Hsplit.
          exact Hzb. }
  destruct Hw as (w & [Hw0 Hwb] & Hv).
  assert (Hfinite : Qle_bool (Binary64.pow2 1024) (Qabs (roundedAt k (inject_Z z)))
                    = false).
  { destruct (Qle_bool _ _) eqn:E; [|reflexivity].
    apply Qle_bool_iff in E. rewrite Hv in E.
    rewrite pow2_nonneg in E by lia.
    rewrite Qabs_pos in E
      by (change 0 with (inject_Z 0); now rewrite <- Zle_Qle).
    rewrite <- Zle_Qle in E. lia. }
  rewrite Hfinite. exists w. split; [split; assumption|].
  now rewrite (Qred_complete _ _ Hv), Qred_inject_Z.
Qed.

(** ** The risk score on doubles *)

Lemma naturalUpTo_more (a b : Z) (x : Binary64.double) :
  (a <= b)%Z -> naturalUpTo a x -> naturalUpTo b x.
Proof.
  intros Hab (w & [H0 Hw] & Hx). exists w. split; [|exact Hx].
  split; [exact H0|]. etransitivity; [exact Hw|].
  apply Z.mul_le_mono_nonneg_r; [apply Z.pow_nonneg; lia | exact Hab].
Qed.

Lemma naturalUpTo_natural (b : Z) (x : Binary64.double) :
  naturalUpTo b x -> naturalOrInfinity x.
Proof. intros (w & [H0 _] & Hx). right. now exists w. Qed.

Lemma lit_upTo (k : Z) : (0 <= k <= 3)%Z -> naturalUpTo 1 (Binary64.lit k).
Proof.
  intros Hk. exists k. split; [|reflexivity]. split; [lia|].
  assert (H : (3 <= 1 * 2 ^ 971)%Z) by (apply Z.leb_le; vm_compute; reflexivity).
  lia.
Qed.

Lemma add_natural (x y : Binary64.double) :
  naturalOrInfinity x -> naturalOrInfinity y ->
  naturalOrInfinity (Binary64.add x y).
Proof.
  intros [->|(a & Ha & ->)] [->|(b & Hb & ->)]; cbn [Binary64.add Bool.eqb];
    try (left; reflexivity).
  rewrite <- inject_Z_plus. apply round64_natural. lia.
Qed.

Lemma add_upTo (a b : Z) (x y : Binary64.double) :
  ((a + b) * 2 ^ 971 < 2 ^ 1024)%Z ->
  naturalUpTo a x -> naturalUpTo b y -> naturalUpTo (a + b) (Binary64.add x y).
Proof.
  intros Hab (v & Hv & ->) (w & Hw & ->). cbn [Binary64.add].
  rewrite <- inject_Z_plus. apply round64_upTo; [|exact Hab]. lia.
Qed.

(** What a block of the score makes of a risk score that is a
    non-negative integer or infinite, and of one that is known to be
    small, when it adds a literal. *)
Lemma scoreAge_natural64 (profile : UserProfile) (r : Binary64.double) :
  naturalOrInfinity r -> naturalOrInfinity (Binary64.scoreAge profile r).
Proof.
  intros H. unfold Binary64.scoreAge.
  destruct (Binary64.number (age profile)) as [a|]; [|exact H].
  destruct (Binary64.truthy a), (Binary64.ltb a (Binary64.lit 25)),
    (Binary64.ltb a (Binary64.lit 35)), (Binary64.gtb a (Binary64.lit 70));
    try exact H;
    (apply add_natural; [exact H | apply (naturalUpTo_natural 1), lit_upTo; lia]).
Qed.

Lemma scoreExperience_natural64 (profile : UserProfile) (r : Binary64.double) :
  naturalOrInfinity r -> naturalOrInfinity (Binary64.scoreExperience profile r).
Proof.
  intros H. unfold Binary64.scoreExperience.
  destruct (Binary64.number (drivingExperience profile)) as [e|]; [|exact H].
  destruct (Binary64.truthy e), (Binary64.ltb e (Binary64.lit 2)),
    (Binary64.ltb e (Binary64.lit 5));
    try exact H;
    (apply add_natural; [exact H | apply (naturalUpTo_natural 1), lit_upTo; lia]).
Qed.

Lemma scoreMileage_natural64 (profile : UserProfile) (r : Binary64.double) :
  naturalOrInfinity r -> naturalOrInfinity (Binary64.scoreMileage profile r).
Proof.
  intros H. unfold Binary64.scoreMileage.
  destruct (Binary64.number (annualMileage profile)) as [m|]; [|exact H].
  destruct (Binary64.truthy m), (Binary64.gtb m (Binary64.lit 30000));
    try exact H;
    (apply add_natural; [exact H | apply (naturalUpTo_natural 1), lit_upTo; lia]).
Qed.

Lemma scoreAge_upTo (profile : UserProfile) (b : Z) (r : Binary64.double) :
  ((b + 1) * 2 ^ 971 < 2 ^ 1024)%Z ->
  naturalUpTo b r -> naturalUpTo (b + 1) (Binary64.scoreAge profile r).
Proof.
  intros Hb H.
  assert (Hkeep : naturalUpTo (b + 1) r) by (apply (naturalUpTo_more b); [lia | exact H]).
  unfold Binary64.scoreAge.
  destruct (Binary64.number (age profile)) as [a|]; [|exact Hkeep].
  destruct (Binary64.truthy a), (Binary64.ltb a (Binary64.lit 25)),
    (Binary64.ltb a (Binary64.lit 35)), (Binary64.gtb a (Binary64.lit 70));
    try exact Hkeep;
    (apply add_upTo; [exact Hb | exact H | apply lit_upTo; lia]).
Qed.

Lemma scoreExperience_upTo (profile : UserProfile) (b : Z) (r : Binary64.double) :
  ((b + 1) * 2 ^ 971 < 2 ^ 1024)%Z ->
  naturalUpTo b r -> naturalUpTo (b + 1) (Binary64.scoreExperience profile r).
Proof.
  intros Hb H.
  assert (Hkeep : naturalUpTo (b + 1) r) by (apply (naturalUpTo_more b); [lia | exact H]).
  unfold Binary64.scoreExperience.
  destruct (Binary64.number (drivingExperience profile)) as [e|]; [|exact Hkeep].
  destruct (Binary64.truthy e), (Binary64.ltb e (Binary64.lit 2)),
    (Binary64.ltb e (Binary64.lit 5));
    try exact Hkeep;
    (apply add_upTo; [exact Hb | exact H | apply lit_upTo; lia]).
Qed.

Lemma scoreMileage_upTo (profile : UserProfile) (b : Z) (r : Binary64.double) :
  ((b + 1) * 2 ^ 971 < 2 ^ 1024)%Z ->
  naturalUpTo b r -> naturalUpTo (b + 1) (Binary64.scoreMileage profile r).
Proof.
  intros Hb H.
  assert (Hkeep : naturalUpTo (b + 1) r) by (apply (naturalUpTo_more b); [lia | exact H]).
  unfold Binary64.scoreMileage.
  destruct (Binary64.number (annualMileage profile)) as [m|]; [|exact Hkeep].
  destruct (Binary64.truthy m), (Binary64.gtb m (Binary64.lit 30000));
    try exact Hkeep;
    (apply add_upTo; [exact Hb | exact H | apply lit_upTo; lia]).
Qed.

(** What [round64] returns is in lowest terms. *)
Lemma round64_reduced (c q : Q) :
  Binary64.round64 c = Binary64.Fin q -> Qred q = q.
Proof.
  rewrite round64_unfold.
  destruct (Qeq_bool c 0); [intros H; injection H as <-; reflexivity|].
  destruct (Qle_bool _ _); [discriminate|].
  intros H.
  replace q with (Qred (roundedAt (Binary64.quantum c) c)) by congruence.
  apply Qred_involutive.
Qed.

Lemma parsed_natural (c : Q) :
  isNatural (Binary64.parse c) = true ->
  exists w : Z, (0 <= w)%Z /\ Binary64.parse c = Binary64.Fin (inject_Z w).
Proof.
  unfold isNatural, Binary64.parse.
  destruct (Binary64.round64 c) as [|a|q] eqn:E; try discriminate.
  intros H. apply isNonNegInteger_natural in H as (w & Hw & Hq).
  exists w. split; [exact Hw|]. f_equal.
  rewrite <- (round64_reduced c q E), (Qred_complete _ _ Hq).
  apply Qred_inject_Z.
Qed.

Lemma accidentTerm_natural (profile : UserProfile) :
  countedAccidentsNatural64 profile = true ->
  hasAccidents profile = Some true ->
  exists w : Z,
    (0 <= w)%Z
    /\ Binary64.mul (Binary64.accidentCountOr1 profile) (Binary64.lit 2)
       = Binary64.round64 (inject_Z (w * 2))
    /\ (countedAccidentsAtMost (2 ^ 1022) profile = true -> (w <= 2 ^ 1022)%Z).
Proof.
  unfold countedAccidentsNatural64, countedAccidentsAtMost,
    Binary64.accidentCountOr1, Binary64.number.
  intros Hnat Hacc. rewrite Hacc in *.
  assert (Hone : (1 <= 2 ^ 1022)%Z) by (apply Z.leb_le; vm_compute; reflexivity).
  destruct (accidentCount profile) as [c|]; cbn [option_map].
  - destruct (parsed_natural c Hnat) as (w & Hw & Hc). rewrite Hc.
    destruct (Binary64.truthy (Binary64.Fin (inject_Z w))).
    + exists w. split; [exact Hw|]. split.
      * cbn [Binary64.mul Binary64.lit]. now rewrite <- inject_Z_mult.
      * intros H. apply Qle_bool_iff in H. now rewrite <- Zle_Qle in H.
    + exists 1%Z. split; [lia|]. split; [reflexivity | intros _; exact Hone].
  - exists 1%Z. split; [lia|]. split; [reflexivity | intros _; exact Hone].
Qed.

(** [{hasAccidents: true, accidentCount: -1}] scores [-2] and an
    accident count of a quarter scores a half, on doubles as exactly. *)
Lemma risk_score_can_be_negative64 :
  Binary64.riskScoreOf negativeCount = Binary64.Fin (-2 # 1)
  /\ isNatural (Binary64.riskScoreOf negativeCount) = false
  /\ Binary64.riskScoreOf quarterCount = Binary64.Fin (1 # 2)
  /\ isNatural (Binary64.riskScoreOf quarterCount) = false.
Proof. vm_compute. repeat split; reflexivity. Qed.

(** C5, amended.  On doubles, as the code computes: when the accident
    count the accident block reads is a non-negative integer (or the
    block reads none), the risk score is a non-negative integer, or
    positive infinity when doubling the count or adding to it overflows;
    it is a non-negative integer whenever that count is at most
    [2 ^ 1022].  An accident count of 10 ^ 308 gives infinity. *)
Theorem risk_score_natural (profile : UserProfile) :
  countedAccidentsNatural64 profile = true ->
  (isNatural (Binary64.riskScoreOf profile) = true
   \/ Binary64.riskScoreOf profile = Binary64.Inf false)
  /\ (countedAccidentsAtMost (2 ^ 1022) profile = true ->
      isNatural (Binary64.riskScoreOf profile) = true)
  /\ Binary64.riskScoreOf hugeCount = Binary64.Inf false.
Proof.
  intros Hnat.
  assert (Hfin : forall x, (exists b, naturalUpTo b x) -> isNatural x = true).
  { intros x (b & w & [Hw _] & ->). cbn [isNatural].
    apply isNonNegInteger_natural. exists w. split; [exact Hw | reflexivity]. }
  assert (Hzero : naturalUpTo 0 (Binary64.lit 0)).
  { exists 0%Z. split; [|reflexivity]. rewrite Z.mul_0_l. lia. }
  assert (Hsmall : forall b, (0 <= b <= 2 ^ 52 + 3)%Z ->
                             (b * 2 ^ 971 < 2 ^ 1024)%Z).
  { intros b Hb.
    apply (Z.le_lt_trans _ ((2 ^ 52 + 3) * 2 ^ 971));
      [apply Z.mul_le_mono_nonneg_r; [apply Z.pow_nonneg|]; lia|].
    apply Z.ltb_lt. vm_compute. reflexivity. }
  assert (H252 : (0 < 2 ^ 52)%Z) by (apply Z.pow_pos_nonneg; lia).
  pose proof (scoreAge_upTo profile 0 _
                (Hsmall (0 + 1)%Z ltac:(lia)) Hzero) as Hage.
  pose proof (scoreExperience_upTo profile (0 + 1) _
                (Hsmall (0 + 1 + 1)%Z ltac:(lia)) Hage) as Hexp.
  split; [|split; [|vm_compute; reflexivity]].
  - assert (H : naturalOrInfinity (Binary64.riskScoreOf profile)).
    { unfold Binary64.riskScoreOf. apply scoreMileage_natural64.
      unfold Binary64.scoreAccidents.
      destruct (hasAccidents profile) as [[|]|] eqn:Hacc;
        try (eapply naturalUpTo_natural; exact Hexp).
      destruct (accidentTerm_natural profile Hnat Hacc) as (w & Hw & -> & _).
      apply add_natural; [eapply naturalUpTo_natural; exact Hexp|].
      apply round64_natural. lia. }
    destruct H as [H|(w & Hw & H)]; [now right|left].
    rewrite H. cbn [isNatural]. apply isNonNegInteger_natural.
    exists w. split; [exact Hw | reflexivity].
  - intros Hbound. apply Hfin. exists (0 + 1 + 1 + 2 ^ 52 + 1)%Z.
    unfold Binary64.riskScoreOf.
    apply scoreMileage_upTo; [apply Hsmall; lia|].
    unfold Binary64.scoreAccidents.
    destruct (hasAccidents profile) as [[|]|] eqn:Hacc;
      try (apply (naturalUpTo_more (0 + 1 + 1)); [lia | exact Hexp]).
    destruct (accidentTerm_natural profile Hnat Hacc) as (w & Hw & -> & Hle).
    specialize (Hle Hbound).
    apply add_upTo; [apply Hsmall; lia | exact Hexp|].
    apply round64_upTo; [|apply Hsmall; lia].
    split; [lia|].
    replace (2 ^ 52 * 2 ^ 971)%Z with (2 ^ 1022 * 2)%Z
      by (vm_compute; reflexivity).
    lia.
Qed.

Lemma risk_score_natural_witness :
  countedAccidentsNatural64 youngDriver = true
  /\ countedAccidentsAtMost (2 ^ 1022) youngDriver = true
  /\ isNatural (Binary64.riskScoreOf youngDriver) = true.
Proof.
  split; [vm_compute; reflexivity|]. split; [vm_compute; reflexivity|].
  destruct (risk_score_natural youngDriver) as (_ & H & _);
    [vm_compute; reflexivity|].
  apply H. vm_compute. reflexivity.
Defined.

(** ** The budget cap on doubles *)

Lemma ilog2_le (q : Q) (m : Z) :
  0 < q -> (0 <= m)%Z -> q <= inject_Z (2 ^ m) -> (Binary64.ilog2 q <= m)%Z.
Proof.
  destruct q as [a b]. intros Hpos Hm Hle.
  unfold Qlt in Hpos. unfold Qle in Hle. cbn [Qnum Qden inject_Z] in Hpos, Hle.
  assert (Ha : (0 < a)%Z) by lia.
  assert (Hd : (Z.log2 a <= m + Z.log2 (Zpos b))%Z).
  { rewrite <- (Z.log2_mul_pow2 (Zpos b) m) by lia.
    apply Z.log2_le_mono. lia. }
  unfold Binary64.ilog2. cbn [Qnum Qden].
  destruct (Qle_bool _ _); lia.
Qed.

Lemma Qabs_positive (q : Q) : 0 < q -> Qabs q = q.
Proof.
  destruct q as [a b]. unfold Qlt. cbn [Qnum Qden inject_Z]. intros H.
  unfold Qabs. now rewrite Z.abs_eq by lia.
Qed.

(** An integer of at most 53 bits above [q] is above the double nearest
    to [q]. *)
Lemma round64_atMost (q : Q) (z : Z) :
  (0 <= z <= 2 ^ 52)%Z -> q <= inject_Z z ->
  atMost (Binary64.round64 q) z = true.
Proof.
  intros [Hz0 Hz] Hq. rewrite round64_unfold.
  assert (Hz0' : 0 <= inject_Z z).
  { change 0 with (inject_Z 0). now rewrite <- Zle_Qle. }
  destruct (Qeq_bool q 0) eqn:E0; [now apply Qle_bool_iff|].
  assert (Hnz : ~ q == 0).
  { intros H. apply Qeq_bool_iff in H. congruence. }
  set (k := Binary64.quantum q).
  pose proof (pow2_positive k) as Hp.
  destruct (Qlt_le_dec 0 q) as [Hpos|Hneg].
  - assert (Hk : (k <= 0)%Z).
    { unfold k, Binary64.quantum. rewrite (Qabs_positive q Hpos).
      assert (Hl : (Binary64.ilog2 q <= 52)%Z).
      { apply ilog2_le; [exact Hpos | lia|].
        apply (Qle_trans _ (inject_Z z)); [exact Hq|].
        now rewrite <- Zle_Qle. }
      lia. }
    pose proof (pow2_reciprocal k Hk) as Hi.
    pose proof (pow2_inverse k Hk) as Hinv.
    assert (H2 : 0 < inject_Z (2 ^ (- k))).
    { change 0 with (inject_Z 0). rewrite <- Zlt_Qlt. apply Z.pow_pos_nonneg; lia. }
    assert (Hr : (Binary64.rne (q / Binary64.pow2 k) <= z * 2 ^ (- k))%Z).
    { apply rne_le. unfold Qdiv. rewrite Hi, inject_Z_mult.
      apply Qmult_le_compat_r; [exact Hq | lra]. }
    assert (Hr0 : (0 <= Binary64.rne (q / Binary64.pow2 k))%Z).
    { apply rne_nonneg. unfold Qdiv. rewrite Hi.
      apply Qmult_le_0_compat; lra. }
    assert (Hv : roundedAt k q <= inject_Z z).
    { unfold roundedAt.
      rewrite Zle_Qle, inject_Z_mult in Hr.
      apply (Qmult_le_compat_r _ _ (Binary64.pow2 k)) in Hr; [|lra].
      rewrite <- Qmult_assoc, (Qmult_comm (inject_Z (2 ^ (- k)))), Hinv in Hr.
      lra. }
    assert (Hv0 : 0 <= roundedAt k q).
    { unfold roundedAt. apply Qmult_le_0_compat; [|lra].
      change 0 with (inject_Z 0). now rewrite <- Zle_Qle. }
    assert (Hfinite : Qle_bool (Binary64.pow2 1024) (Qabs (roundedAt k q)) = false).
    { destruct (Qle_bool _ _) eqn:E; [|reflexivity].
      apply Qle_bool_iff in E. rewrite (Qabs_pos _ Hv0) in E.
      rewrite pow2_nonneg in E by lia.
      assert (Hbig : inject_Z z < inject_Z (2 ^ 1024)).
      { rewrite <- Zlt_Qlt. apply (Z.le_lt_trans _ (2 ^ 52)); [exact Hz|].
        apply Z.ltb_lt. vm_compute. reflexivity. }
      lra. }
    rewrite Hfinite. cbn [atMost]. apply Qle_bool_iff.
    now rewrite Qred_correct.
  - assert (Hlt : q < 0).
    { apply Qle_lteq in Hneg as [H|H]; [exact H | contradiction]. }
    assert (Hr : (Binary64.rne (q / Binary64.pow2 k) <= 0)%Z).
    { apply rne_le. apply Qle_shift_div_r; [exact Hp|].
      rewrite Qmult_0_l. exact Hneg. }
    assert (Hv : roundedAt k q <= 0).
    { unfold roundedAt. rewrite Zle_Qle in Hr.
      apply (Qmult_le_compat_r _ _ (Binary64.pow2 k)) in Hr; [|lra].
      rewrite Qmult_0_l in Hr. exact Hr. }
    assert (Hs : Qle_bool 0 q = false).
    { destruct (Qle_bool 0 q) eqn:E; [|reflexivity].
      apply Qle_bool_iff in E. lra. }
    rewrite Hs.
    destruct (Qle_bool (Binary64.pow2 1024) (Qabs (roundedAt k q)));
      [reflexivity|].
    cbn [atMost]. apply Qle_bool_iff. rewrite Qred_correct. lra.
Qed.

Lemma min_atMost (x : Binary64.double) (z : Z) :
  isNaN (Binary64.min x (Binary64.lit z)) = true
  \/ atMost (Binary64.min x (Binary64.lit z)) z = true.
Proof.
  destruct x as [|a|q]; cbn [Binary64.min Binary64.lit Binary64.ltb].
  - left. reflexivity.
  - right. destruct a; cbn [negb atMost]; [reflexivity|].
    apply Qle_bool_iff. apply Qle_refl.
  - right. js_case (JS.ltb (inject_Z z) q); cbn [atMost]; apply Qle_bool_iff;
      [apply Qle_refl | assumption].
Qed.

Lemma round_atMost (x : Binary64.double) (z : Z) :
  atMost x z = true -> atMost (Binary64.round x) z = true.
Proof.
  destruct x as [|a|q]; cbn [Binary64.round atMost]; try exact (fun H => H).
  intros H. apply Qle_bool_iff in H. apply Qle_bool_iff.
  rewrite <- Zle_Qle. now apply round_le.
Qed.

Lemma mul12_atMost (x : Binary64.double) (z : Z) :
  (0 <= z * 12 <= 2 ^ 52)%Z -> atMost x z = true ->
  atMost (Binary64.mul x (Binary64.lit 12)) (z * 12) = true.
Proof.
  intros Hz. destruct x as [|a|q]; cbn [Binary64.mul Binary64.lit atMost];
    try discriminate.
  - intros ->. reflexivity.
  - intros H. apply Qle_bool_iff in H. apply round64_atMost; [exact Hz|].
    rewrite inject_Z_mult. apply Qmult_le_compat_r; [exact H | discriminate].
Qed.

Lemma figures_atMost (x : Binary64.double) (z : Z) :
  (0 <= z * 12 <= 2 ^ 52)%Z ->
  isNaN x = true \/ atMost x z = true ->
  (isNaN (Binary64.round x) = true \/ atMost (Binary64.round x) z = true)
  /\ (isNaN (Binary64.round (Binary64.mul x (Binary64.lit 12))) = true
      \/ atMost (Binary64.round (Binary64.mul x (Binary64.lit 12))) (z * 12) = true).
Proof.
  intros Hz [Hnan|Hle].
  - destruct x; try discriminate. split; left; reflexivity.
  - split; right; [now apply round_atMost|].
    now apply round_atMost, mul12_atMost.
Qed.

(** X7. On doubles, as the code computes: under the budget literal of 50
    to 100 euros the monthly figure is at most 100 and the annual figure
    at most 1200, and under that of 100 to 150 euros at most 150 and
    1800, for every profile and every risk score, unless the figure is
    [NaN], which an accident count and a vehicle value overflowing to
    opposite infinities produce. *)
Theorem premium_within_budget (profile : UserProfile) (riskScore : Binary64.double) :
  (budgetRange profile = Some budget50to100 ->
   (isNaN (Binary64.estimatedMonthlyOf profile riskScore) = true
    \/ atMost (Binary64.estimatedMonthlyOf profile riskScore) 100 = true)
   /\ (isNaN (Binary64.estimatedAnnualOf profile riskScore) = true
       \/ atMost (Binary64.estimatedAnnualOf profile riskScore) 1200 = true))
  /\ (budgetRange profile = Some budget100to150 ->
      (isNaN (Binary64.estimatedMonthlyOf profile riskScore) = true
       \/ atMost (Binary64.estimatedMonthlyOf profile riskScore) 150 = true)
      /\ (isNaN (Binary64.estimatedAnnualOf profile riskScore) = true
          \/ atMost (Binary64.estimatedAnnualOf profile riskScore) 1800 = true))
  /\ Binary64.calculateEstimatedPremium oppositeInfinities
       (Binary64.riskScoreOf oppositeInfinities)
     = euro :: JS.lit "NaN/month (approximately " ++ euro :: JS.lit "NaN/year)".
Proof.
  unfold Binary64.estimatedMonthlyOf, Binary64.estimatedAnnualOf.
  rewrite basePriceOf64_spec. unfold specCapped64. cbv zeta.
  split; [|split; [|vm_compute; reflexivity]]; intros Hb.
  - destruct (option_eq_dec (budgetRange profile) (Some budget50to100));
      [|contradiction].
    apply (figures_atMost _ 100); [|apply min_atMost].
    split; [lia | apply Z.leb_le; vm_compute; reflexivity].
  - destruct (option_eq_dec (budgetRange profile) (Some budget50to100)) as [E|_].
    { rewrite Hb in E. exfalso.
      apply (f_equal (fun o : option jsstring =>
                        match o with Some (_ :: c :: _) => c | _ => 0%N end)) in E.
      vm_compute in E. discriminate E. }
    destruct (option_eq_dec (budgetRange profile) (Some budget100to150));
      [|contradiction].
    apply (figures_atMost _ 150); [|apply min_atMost].
    split; [lia | apply Z.leb_le; vm_compute; reflexivity].
Qed.

Lemma premium_within_budget_witness :
  budgetRange youngDriver = Some budget50to100
  /\ atMost (Binary64.estimatedMonthlyOf youngDriver (Binary64.riskScoreOf youngDriver))
       100 = true.
Proof.
  split; [reflexivity|].
  destruct (premium_within_budget youngDriver (Binary64.riskScoreOf youngDriver))
    as [H _].
  destruct (H eq_refl) as [[Hnan|Hle] _]; [|exact Hle].
  vm_compute in Hnan. discriminate Hnan.
Defined.

(** ** Where nothing is rounded *)

(** A non-negative integer below [2 ^ 53] is a double. *)
Lemma round64_exact (z : Z) :
  (0 <= z < 2 ^ 53)%Z -> Binary64.round64 (inject_Z z) = Binary64.Fin (inject_Z z).
Proof.
  intros [Hz Hlt]. rewrite round64_unfold.
  destruct (Qeq_bool (inject_Z z) 0) eqn:E0.
  { apply Qeq_bool_iff in E0. unfold Qeq in E0. cbn [Qnum Qden inject_Z] in E0.
    assert (z = 0%Z) as -> by lia. reflexivity. }
  assert (Hpos : (0 < z)%Z).
  { destruct (Z.eq_dec z 0) as [->|]; [discriminate E0 | lia]. }
  pose proof (quantum_of_natural z 53 (conj Hpos Hlt)) as Hk.
  change (Z.max (53 - 53) (-1074)) with 0%Z in Hk.
  pose proof (roundedAt_fine _ z Hk) as Hv.
  assert (Hfinite : Qle_bool (Binary64.pow2 1024)
                      (Qabs (roundedAt (Binary64.quantum (inject_Z z)) (inject_Z z)))
                    = false).
  { destruct (Qle_bool _ _) eqn:E; [|reflexivity].
    apply Qle_bool_iff in E. rewrite Hv in E.
    rewrite pow2_nonneg in E by lia.
    rewrite Qabs_pos in E
      by (change 0 with (inject_Z 0); now rewrite <- Zle_Qle).
    rewrite <- Zle_Qle in E.
    assert (H : (2 ^ 53 < 2 ^ 1024)%Z) by (apply Z.ltb_lt; vm_compute; reflexivity).
    lia. }
  rewrite Hfinite. now rewrite (Qred_complete _ _ Hv), Qred_inject_Z.
Qed.

Lemma add_below (a b : Z) (x y : Binary64.double) :
  (a + b < 2 ^ 53)%Z ->
  naturalBelow a x -> naturalBelow b y -> naturalBelow (a + b) (Binary64.add x y).
Proof.
  intros Hab (v & Hv & ->) (w & Hw & ->). cbn [Binary64.add].
  rewrite <- inject_Z_plus, round64_exact by lia.
  exists (v + w)%Z. split; [lia | reflexivity].
Qed.

Lemma mul_below (a k : Z) (x : Binary64.double) :
  (0 <= k)%Z -> (a * k < 2 ^ 53)%Z ->
  naturalBelow a x -> naturalBelow (a * k) (Binary64.mul x (Binary64.lit k)).
Proof.
  intros Hk Hak (v & Hv & ->). cbn [Binary64.mul Binary64.lit].
  assert (Hvk : (0 <= v * k <= a * k)%Z).
  { split; [apply Z.mul_nonneg_nonneg; lia|].
    apply Z.mul_le_mono_nonneg_r; lia. }
  rewrite <- inject_Z_mult, round64_exact by lia.
  exists (v * k)%Z. split; [exact Hvk | reflexivity].
Qed.

Lemma below_more (a b : Z) (x : Binary64.double) :
  (a <= b)%Z -> naturalBelow a x -> naturalBelow b x.
Proof.
  intros Hab (w & Hw & Hx). exists w. split; [lia | exact Hx].
Qed.

Lemma lit_below (k : Z) : (0 <= k)%Z -> naturalBelow k (Binary64.lit k).
Proof. intros Hk. exists k. split; [lia | reflexivity]. Qed.

Lemma scoreAge_below (profile : UserProfile) (b : Z) (r : Binary64.double) :
  (b + 3 < 2 ^ 53)%Z ->
  naturalBelow b r -> naturalBelow (b + 3) (Binary64.scoreAge profile r).
Proof.
  intros Hb H.
  assert (Hkeep : naturalBelow (b + 3) r) by (apply (below_more b); [lia | exact H]).
  unfold Binary64.scoreAge.
  destruct (Binary64.number (age profile)) as [a|]; [|exact Hkeep].
  destruct (Binary64.truthy a), (Binary64.ltb a (Binary64.lit 25)),
    (Binary64.ltb a (Binary64.lit 35)), (Binary64.gtb a (Binary64.lit 70));
    try exact Hkeep;
    (eapply below_more; [|apply add_below; [|exact H|apply lit_below]]; lia).
Qed.

Lemma scoreExperience_below (profile : UserProfile) (b : Z) (r : Binary64.double) :
  (b + 2 < 2 ^ 53)%Z ->
  naturalBelow b r -> naturalBelow (b + 2) (Binary64.scoreExperience profile r).
Proof.
  intros Hb H.
  assert (Hkeep : naturalBelow (b + 2) r) by (apply (below_more b); [lia | exact H]).
  unfold Binary64.scoreExperience.
  destruct (Binary64.number (drivingExperience profile)) as [e|]; [|exact Hkeep].
  destruct (Binary64.truthy e), (Binary64.ltb e (Binary64.lit 2)),
    (Binary64.ltb e (Binary64.lit 5));
    try exact Hkeep;
    (eapply below_more; [|apply add_below; [|exact H|apply lit_below]]; lia).
Qed.

Lemma scoreMileage_below (profile : UserProfile) (b : Z) (r : Binary64.double) :
  (b + 1 < 2 ^ 53)%Z ->
  naturalBelow b r -> naturalBelow (b + 1) (Binary64.scoreMileage profile r).
Proof.
  intros Hb H.
  assert (Hkeep : naturalBelow (b + 1) r) by (apply (below_more b); [lia | exact H]).
  unfold Binary64.scoreMileage.
  destruct (Binary64.number (annualMileage profile)) as [m|]; [|exact Hkeep].
  destruct (Binary64.truthy m), (Binary64.gtb m (Binary64.lit 30000));
    try exact Hkeep;
    (eapply below_more; [|apply add_below; [|exact H|apply lit_below]]; lia).
Qed.

Lemma accidentTerm_below (profile : UserProfile) (bound : Z) :
  (1 <= bound)%Z -> (bound * 2 < 2 ^ 53)%Z ->
  countedAccidentsNatural64 profile = true ->
  countedAccidentsAtMost bound profile = true ->
  hasAccidents profile = Some true ->
  naturalBelow (bound * 2)
    (Binary64.mul (Binary64.accidentCountOr1 profile) (Binary64.lit 2)).
Proof.
  unfold countedAccidentsNatural64, countedAccidentsAtMost,
    Binary64.accidentCountOr1, Binary64.number.
  intros Hone Hb Hnat Hmost Hacc. rewrite Hacc in *.
  apply mul_below; [lia | exact Hb|].
  destruct (accidentCount profile) as [c|]; cbn [option_map];
    [|apply (below_more 1); [lia | apply lit_below; lia]].
  destruct (parsed_natural c Hnat) as (w & Hw & Hc). rewrite Hc in *.
  destruct (Binary64.truthy (Binary64.Fin (inject_Z w)));
    [|apply (below_more 1); [lia | apply lit_below; lia]].
  apply Qle_bool_iff in Hmost. rewrite <- Zle_Qle in Hmost.
  exists w. split; [lia | reflexivity].
Qed.

Lemma riskScoreOf_below (profile : UserProfile) :
  countedAccidentsNatural64 profile = true ->
  countedAccidentsAtMost (2 ^ 40) profile = true ->
  naturalBelow (2 ^ 41 + 6) (Binary64.riskScoreOf profile).
Proof.
  intros Hnat Hmost.
  assert (H41 : (2 ^ 41 = 2199023255552)%Z) by reflexivity.
  assert (H40 : (2 ^ 40 = 1099511627776)%Z) by reflexivity.
  assert (H53 : (2 ^ 53 = 9007199254740992)%Z) by reflexivity.
  assert (Hzero : naturalBelow 0 (Binary64.lit 0)) by (apply lit_below; lia).
  assert (Hage : naturalBelow (0 + 3) (Binary64.scoreAge profile (Binary64.lit 0))).
  { apply scoreAge_below; [lia | exact Hzero]. }
  assert (Hexp : naturalBelow (0 + 3 + 2)
                   (Binary64.scoreExperience profile
                      (Binary64.scoreAge profile (Binary64.lit 0)))).
  { apply scoreExperience_below; [lia | exact Hage]. }
  unfold Binary64.riskScoreOf.
  apply (below_more (0 + 3 + 2 + 2 ^ 40 * 2 + 1)); [lia|].
  apply scoreMileage_below; [lia|].
  unfold Binary64.scoreAccidents.
  destruct (hasAccidents profile) as [[|]|] eqn:Hacc;
    try (eapply below_more; [|exact Hexp]; lia).
  apply add_below; [lia | exact Hexp|].
  apply accidentTerm_below; try assumption; lia.
Qed.

(** X10. On doubles, as the code computes: without a vehicle value, and
    with an accident count that is a non-negative integer of at most
    [2 ^ 40] when the accident block reads it, every intermediate value
    is an integer below [2 ^ 53]; nothing is rounded, the monthly figure
    is the capped base itself and the annual figure is exactly twelve
    times the monthly one, with or without a budget cap. *)
Theorem annual_is_twelve_months (profile : UserProfile) :
  vehicleValue profile = None ->
  countedAccidentsNatural64 profile = true ->
  countedAccidentsAtMost (2 ^ 40) profile = true ->
  exists m : Z,
    (80 <= m)%Z
    /\ Binary64.basePriceOf profile (Binary64.riskScoreOf profile)
       = Binary64.Fin (inject_Z m)
    /\ Binary64.estimatedMonthlyOf profile (Binary64.riskScoreOf profile)
       = Binary64.Fin (inject_Z m)
    /\ Binary64.estimatedAnnualOf profile (Binary64.riskScoreOf profile)
       = Binary64.Fin (inject_Z (12 * m)).
Proof.
  intros Hv Hnat Hmost.
  assert (H41 : (2 ^ 41 = 2199023255552)%Z) by reflexivity.
  assert (H53 : (2 ^ 53 = 9007199254740992)%Z) by reflexivity.
  destruct (riskScoreOf_below profile Hnat Hmost) as (w & Hw & Hr).
  assert (Hbase : exists m : Z,
             (80 <= m <= 100 + 15 * (2 ^ 41 + 6))%Z
             /\ Binary64.basePriceOf profile (Binary64.riskScoreOf profile)
                = Binary64.Fin (inject_Z m)).
  { unfold Binary64.basePriceOf, Binary64.number, Binary64.lit. cbv zeta.
    rewrite Hv, Hr. cbn [option_map Binary64.mul].
    rewrite <- inject_Z_mult, round64_exact by lia.
    cbn [Binary64.add]. rewrite <- inject_Z_plus, round64_exact by lia.
    assert (Hmin : forall b cap : Z,
               (80 <= b <= 20 + 80 + 15 * (2 ^ 41 + 6))%Z -> (80 <= cap <= 150)%Z ->
               exists m : Z,
                 (80 <= m <= 100 + 15 * (2 ^ 41 + 6))%Z
                 /\ Binary64.min (Binary64.Fin (inject_Z b))
                      (Binary64.Fin (inject_Z cap))
                    = Binary64.Fin (inject_Z m)).
    { intros b cap Hb Hcap. cbn [Binary64.min Binary64.ltb].
      destruct (JS.ltb (inject_Z cap) (inject_Z b));
        eexists; (split; [|reflexivity]); lia. }
    assert (Hcap : forall b : Z,
               (80 <= b <= 20 + 80 + 15 * (2 ^ 41 + 6))%Z ->
               exists m : Z,
                 (80 <= m <= 100 + 15 * (2 ^ 41 + 6))%Z
                 /\ (if strictEq (budgetRange profile) budget50to100
                     then Binary64.min (Binary64.Fin (inject_Z b))
                            (Binary64.Fin (inject_Z 100))
                     else if strictEq (budgetRange profile) budget100to150
                          then Binary64.min (Binary64.Fin (inject_Z b))
                                 (Binary64.Fin (inject_Z 150))
                          else Binary64.Fin (inject_Z b))
                    = Binary64.Fin (inject_Z m)).
    { intros b Hb.
      destruct (strictEq (budgetRange profile) budget50to100);
        [apply Hmin; lia|].
      destruct (strictEq (budgetRange profile) budget100to150);
        [apply Hmin; lia|].
      exists b. split; [lia | reflexivity]. }
    destruct (option_map Binary64.parse (annualMileage profile)) as [m|];
      [destruct (Binary64.truthy m);
       [destruct (Binary64.gtb m (Binary64.Fin (inject_Z 30000)))|]|];
      try (apply Hcap; lia).
    cbn [Binary64.add]. rewrite <- inject_Z_plus, round64_exact by lia.
    apply Hcap. lia. }
  destruct Hbase as (m & Hm & Hb).
  exists m. split; [lia|]. split; [exact Hb|].
  unfold Binary64.estimatedMonthlyOf, Binary64.estimatedAnnualOf.
  rewrite Hb. cbn [Binary64.round Binary64.mul Binary64.lit].
  rewrite <- inject_Z_mult, round64_exact by lia.
  cbn [Binary64.round].
  split; f_equal; f_equal.
  - apply (round_integer m). reflexivity.
  - replace (12 * m)%Z with (m * 12)%Z by lia.
    apply (round_integer (m * 12)). reflexivity.
Qed.

Lemma annual_is_twelve_months_witness :
  vehicleValue (withAge 24) = None
  /\ countedAccidentsNatural64 (withAge 24) = true
  /\ countedAccidentsAtMost (2 ^ 40) (withAge 24) = true
  /\ exists m : Z,
       Binary64.estimatedMonthlyOf (withAge 24) (Binary64.riskScoreOf (withAge 24))
       = Binary64.Fin (inject_Z m)
       /\ Binary64.estimatedAnnualOf (withAge 24) (Binary64.riskScoreOf (withAge 24))
          = Binary64.Fin (inject_Z (12 * m)).
Proof.
  split; [reflexivity|]. split; [reflexivity|]. split; [reflexivity|].
  destruct (annual_is_twelve_months (withAge 24) eq_refl eq_refl eq_refl)
    as (m & _ & _ & Hmonth & Hyear).
  exists m. split; assumption.
Defined.

(** ** The blocks add up where nothing is rounded *)

Lemma add_lit (v k : Z) :
  (0 <= v + k < 2 ^ 53)%Z ->
  Binary64.add (Binary64.lit v) (Binary64.lit k) = Binary64.lit (v + k).
Proof.
  intros H. unfold Binary64.lit. cbn [Binary64.add].
  now rewrite <- inject_Z_plus, round64_exact.
Qed.

(** A block that leaves the accumulator or adds a literal to it adds
    the same integer to every accumulator below [2 ^ 52]. *)
Ltac block_shift :=
  let v := fresh "v" in
  let Hv := fresh "Hv" in
  first
    [ exists 0%Z; split; [lia|]; intros v Hv; rewrite Z.add_0_r; reflexivity
    | exists 1%Z; split; [lia|]; intros v Hv; apply add_lit; lia
    | exists 2%Z; split; [lia|]; intros v Hv; apply add_lit; lia
    | exists 3%Z; split; [lia|]; intros v Hv; apply add_lit; lia ].

Lemma scoreAge_shift64 (profile : UserProfile) :
  exists a : Z,
    (0 <= a <= 3)%Z
    /\ forall v : Z, (0 <= v < 2 ^ 52)%Z ->
         Binary64.scoreAge profile (Binary64.lit v) = Binary64.lit (v + a).
Proof.
  assert (H52 : (2 ^ 52 = 4503599627370496)%Z) by reflexivity.
  assert (H53 : (2 ^ 53 = 9007199254740992)%Z) by reflexivity.
  unfold Binary64.scoreAge.
  destruct (Binary64.number (age profile)) as [a|]; [|block_shift].
  destruct (Binary64.truthy a), (Binary64.ltb a (Binary64.lit 25)),
    (Binary64.ltb a (Binary64.lit 35)), (Binary64.gtb a (Binary64.lit 70));
    block_shift.
Qed.

Lemma scoreExperience_shift64 (profile : UserProfile) :
  exists e : Z,
    (0 <= e <= 2)%Z
    /\ forall v : Z, (0 <= v < 2 ^ 52)%Z ->
         Binary64.scoreExperience profile (Binary64.lit v) = Binary64.lit (v + e).
Proof.
  assert (H52 : (2 ^ 52 = 4503599627370496)%Z) by reflexivity.
  assert (H53 : (2 ^ 53 = 9007199254740992)%Z) by reflexivity.
  unfold Binary64.scoreExperience.
  destruct (Binary64.number (drivingExperience profile)) as [e|]; [|block_shift].
  destruct (Binary64.truthy e), (Binary64.ltb e (Binary64.lit 2)),
    (Binary64.ltb e (Binary64.lit 5));
    block_shift.
Qed.

Lemma scoreMileage_shift64 (profile : UserProfile) :
  exists m : Z,
    (0 <= m <= 1)%Z
    /\ forall v : Z, (0 <= v < 2 ^ 52)%Z ->
         Binary64.scoreMileage profile (Binary64.lit v) = Binary64.lit (v + m).
Proof.
  assert (H52 : (2 ^ 52 = 4503599627370496)%Z) by reflexivity.
  assert (H53 : (2 ^ 53 = 9007199254740992)%Z) by reflexivity.
  unfold Binary64.scoreMileage.
  destruct (Binary64.number (annualMileage profile)) as [m|]; [|block_shift].
  destruct (Binary64.truthy m), (Binary64.gtb m (Binary64.lit 30000));
    block_shift.
Qed.

Lemma scoreAccidents_shift64 (profile : UserProfile) :
  countedAccidentsNatural64 profile = true ->
  countedAccidentsAtMost (2 ^ 40) profile = true ->
  exists c : Z,
    (0 <= c <= 2 ^ 41)%Z
    /\ forall v : Z, (0 <= v < 2 ^ 52)%Z ->
         Binary64.scoreAccidents profile (Binary64.lit v) = Binary64.lit (v + c).
Proof.
  intros Hnat Hmost.
  assert (H40 : (2 ^ 40 = 1099511627776)%Z) by reflexivity.
  assert (H41 : (2 ^ 41 = 2199023255552)%Z) by reflexivity.
  assert (H52 : (2 ^ 52 = 4503599627370496)%Z) by reflexivity.
  assert (H53 : (2 ^ 53 = 9007199254740992)%Z) by reflexivity.
  unfold Binary64.scoreAccidents.
  destruct (hasAccidents profile) as [[|]|] eqn:Hacc;
    try (exists 0%Z; split; [lia|]; intros v Hv; rewrite Z.add_0_r; reflexivity).
  destruct (accidentTerm_below profile (2 ^ 40)) as (c & Hc & Hterm);
    try assumption; try lia.
  exists c. split; [lia|]. intros v Hv. rewrite Hterm.
  apply add_lit. lia.
Qed.

(** X2. On doubles, as the code computes: with an accident count that is
    a non-negative integer of at most [2 ^ 40] when the accident block
    reads it, the risk score is the sum of what the age, experience,
    accident and mileage blocks each add on their own, an integer of at
    most 3, 2, [2 ^ 41] and 1.  For large counts the sum is rounded: a
    count of [2 ^ 52] with a mileage above 30000 scores [2 ^ 53], not
    [2 ^ 53 + 1]. *)
Theorem risk_score_sum (profile : UserProfile) :
  countedAccidentsNatural64 profile = true ->
  countedAccidentsAtMost (2 ^ 40) profile = true ->
  (exists a e c m : Z,
     (0 <= a <= 3)%Z /\ (0 <= e <= 2)%Z /\ (0 <= c <= 2 ^ 41)%Z /\ (0 <= m <= 1)%Z
     /\ Binary64.scoreAge profile (Binary64.lit 0) = Binary64.lit a
     /\ Binary64.scoreExperience profile (Binary64.lit 0) = Binary64.lit e
     /\ Binary64.scoreAccidents profile (Binary64.lit 0) = Binary64.lit c
     /\ Binary64.scoreMileage profile (Binary64.lit 0) = Binary64.lit m
     /\ Binary64.riskScoreOf profile = Binary64.lit (a + e + c + m))
  /\ Binary64.scoreAccidents absorbedMileage (Binary64.lit 0)
     = Binary64.lit (2 ^ 53)
  /\ Binary64.scoreMileage absorbedMileage (Binary64.lit 0) = Binary64.lit 1
  /\ Binary64.riskScoreOf absorbedMileage = Binary64.lit (2 ^ 53).
Proof.
  intros Hnat Hmost.
  split; [|split; [|split]];
    [|vm_compute; reflexivity|vm_compute; reflexivity|vm_compute; reflexivity].
  assert (H41 : (2 ^ 41 = 2199023255552)%Z) by reflexivity.
  assert (H52 : (2 ^ 52 = 4503599627370496)%Z) by reflexivity.
  destruct (scoreAge_shift64 profile) as (a & Ha & Hage).
  destruct (scoreExperience_shift64 profile) as (e & He & Hexp).
  destruct (scoreAccidents_shift64 profile Hnat Hmost) as (c & Hc & Hacc).
  destruct (scoreMileage_shift64 profile) as (m & Hm & Hmil).
  exists a, e, c, m.
  split; [exact Ha|]. split; [exact He|]. split; [exact Hc|]. split; [exact Hm|].
  split; [apply (Hage 0%Z); lia|].
  split; [apply (Hexp 0%Z); lia|].
  split; [apply (Hacc 0%Z); lia|].
  split; [apply (Hmil 0%Z); lia|].
  unfold Binary64.riskScoreOf.
  rewrite (Hage 0%Z) by lia. rewrite Hexp by lia.
  rewrite Hacc by lia. rewrite Hmil by lia.
  reflexivity.
Qed.

Lemma risk_score_sum_witness :
  countedAccidentsNatural64 youngDriver = true
  /\ countedAccidentsAtMost (2 ^ 40) youngDriver = true
  /\ exists a e c m : Z,
       Binary64.scoreAge youngDriver (Binary64.lit 0) = Binary64.lit a
       /\ Binary64.scoreExperience youngDriver (Binary64.lit 0) = Binary64.lit e
       /\ Binary64.scoreAccidents youngDriver (Binary64.lit 0) = Binary64.lit c
       /\ Binary64.scoreMileage youngDriver (Binary64.lit 0) = Binary64.lit m
       /\ Binary64.riskScoreOf youngDriver = Binary64.lit (a + e + c + m).
Proof.
  split; [reflexivity|]. split; [reflexivity|].
  destruct (risk_score_sum youngDriver eq_refl eq_refl)
    as [(a & e & c & m & _ & _ & _ & _ & H) _].
  exists a, e, c, m. exact H.
Defined.

(** ** The annual figure beside twelve monthly ones *)

Lemma rne_near (x : Q) :
  x - (1 # 2) <= inject_Z (Binary64.rne x) <= x + (1 # 2).
Proof.
  unfold Binary64.rne. cbv zeta.
  pose proof (Qfloor_le x) as Hlo. pose proof (Qlt_floor x) as Hhi.
  rewrite inject_Z_plus in Hhi. change (inject_Z 1) with 1 in Hhi.
  destruct (Qcompare (x - inject_Z (Qfloor x)) (1 # 2)) eqn:E.
  - rewrite <- Qeq_alt in E.
    destruct (Z.even (Qfloor x));
      [|rewrite inject_Z_plus; change (inject_Z 1) with 1]; split; lra.
  - rewrite <- Qlt_alt in E. split; lra.
  - rewrite <- Qgt_alt in E.
    rewrite inject_Z_plus. change (inject_Z 1) with 1. split; lra.
Qed.

Lemma pow2_le_1 (k : Z) : (k <= 0)%Z -> Binary64.pow2 k <= 1.
Proof.
  intros Hk.
  pose proof (pow2_inverse k Hk) as Hinv.
  pose proof (pow2_positive k) as Hp.
  assert (HN : 1 <= inject_Z (2 ^ (- k))).
  { change 1 with (inject_Z 1). rewrite <- Zle_Qle.
    pose proof (Z.pow_pos_nonneg 2 (- k)). lia. }
  rewrite <- Hinv. rewrite <- (Qmult_1_r (Binary64.pow2 k)) at 1.
  apply Qmult_le_l; assumption.
Qed.

(** Up to [2 ^ 52] in magnitude the nearest double is within a half. *)
Lemma round64_near (q : Q) :
  Qabs q <= inject_Z (2 ^ 52) ->
  exists v : Q,
    Binary64.round64 q = Binary64.Fin v /\ q - (1 # 2) <= v <= q + (1 # 2).
Proof.
  intros Hq. rewrite round64_unfold.
  destruct (Qeq_bool q 0) eqn:E0.
  { apply Qeq_bool_iff in E0. exists 0. split; [reflexivity | split; lra]. }
  assert (Hnz : ~ q == 0).
  { intros H. apply Qeq_bool_iff in H. congruence. }
  assert (Habs : 0 < Qabs q).
  { apply Qabs_case; intros H; apply Qle_lteq in H as [H|H]; lra. }
  set (k := Binary64.quantum q).
  assert (Hk : (k <= 0)%Z).
  { unfold k, Binary64.quantum.
    assert (Hl : (Binary64.ilog2 (Qabs q) <= 52)%Z)
      by (apply ilog2_le; [exact Habs | lia | exact Hq]).
    lia. }
  pose proof (pow2_positive k) as Hp.
  pose proof (pow2_le_1 k Hk) as Hp1.
  assert (Hpnz : ~ Binary64.pow2 k == 0) by lra.
  destruct (rne_near (q / Binary64.pow2 k)) as [Hlo Hhi].
  pose proof (Qmult_div_r q (Binary64.pow2 k) Hpnz) as Hx.
  assert (Hv : q - (1 # 2) <= roundedAt k q <= q + (1 # 2)).
  { unfold roundedAt.
    set (p := Binary64.pow2 k) in *. set (x := q / p) in *.
    set (r := inject_Z (Binary64.rne x)) in *.
    split; nra. }
  apply Qabs_Qle_condition in Hq as [Hq1 Hq2].
  assert (Hbig : inject_Z (2 ^ 52) + 1 < inject_Z (2 ^ 1024)).
  { change 1 with (inject_Z 1). rewrite <- inject_Z_plus, <- Zlt_Qlt.
    apply Z.ltb_lt. vm_compute. reflexivity. }
  assert (Hfinite : Qle_bool (Binary64.pow2 1024) (Qabs (roundedAt k q)) = false).
  { destruct (Qle_bool _ _) eqn:E; [|reflexivity].
    apply Qle_bool_iff in E. rewrite pow2_nonneg in E by lia.
    assert (Hle : Qabs (roundedAt k q) <= inject_Z (2 ^ 52) + 1).
    { apply Qabs_Qle_condition. split; lra. }
    lra. }
  rewrite Hfinite. exists (Qred (roundedAt k q)).
  split; [reflexivity|]. rewrite Qred_correct. exact Hv.
Qed.

(** X9. On doubles, as the code computes: the annual figure is rounded
    from twelve times the base price, not computed from the monthly
    figure.  While the base price is at most [2 ^ 48] in magnitude it
    lies within 6 of twelve times the monthly figure, and that distance
    is reached (a vehicle value of 12500 at score 0: 93 a month, 1110 a
    year).  Beyond, the product by twelve is rounded as well: an
    accident count of 300000000000001 gives 9000000000000110 a month
    and 108000000000001312 a year, 8 below twelve times the former. *)
Theorem annual_near_twelve_months (profile : UserProfile) (riskScore : Binary64.double) :
  magnitudeAtMost (2 ^ 48) (Binary64.basePriceOf profile riskScore) = true ->
  (exists m a : Z,
     Binary64.estimatedMonthlyOf profile riskScore = Binary64.lit m
     /\ Binary64.estimatedAnnualOf profile riskScore = Binary64.lit a
     /\ (12 * m - 6 <= a <= 12 * m + 6)%Z)
  /\ Binary64.estimatedMonthlyOf fractionalBase (Binary64.lit 0) = Binary64.lit 93
  /\ Binary64.estimatedAnnualOf fractionalBase (Binary64.lit 0)
     = Binary64.lit (12 * 93 - 6)
  /\ Binary64.estimatedMonthlyOf largeCount (Binary64.riskScoreOf largeCount)
     = Binary64.lit 9000000000000110
  /\ Binary64.estimatedAnnualOf largeCount (Binary64.riskScoreOf largeCount)
     = Binary64.lit (12 * 9000000000000110 - 8).
Proof.
  intros Hsize.
  split; [|split; [|split; [|split]]];
    [|vm_compute; reflexivity|vm_compute; reflexivity
     |vm_compute; reflexivity|vm_compute; reflexivity].
  unfold Binary64.estimatedMonthlyOf, Binary64.estimatedAnnualOf.
  destruct (Binary64.basePriceOf profile riskScore) as [| |b]; try discriminate.
  cbn [magnitudeAtMost] in Hsize. apply Qle_bool_iff in Hsize.
  apply Qabs_Qle_condition in Hsize as [Hb1 Hb2].
  cbn [Binary64.round Binary64.mul Binary64.lit].
  assert (H48 : inject_Z (2 ^ 48) * 12 <= inject_Z (2 ^ 52)).
  { change 12 with (inject_Z 12). rewrite <- inject_Z_mult, <- Zle_Qle.
    apply Z.leb_le. vm_compute. reflexivity. }
  destruct (round64_near (b * inject_Z 12)) as (v & Hv & Hlo & Hhi).
  { change (inject_Z 12) with 12. apply Qabs_Qle_condition. split; lra. }
  change (inject_Z 12) with 12 in Hlo, Hhi.
  rewrite Hv. cbn [Binary64.round].
  exists (Qfloor (b + (1 # 2))), (Qfloor (v + (1 # 2))).
  split; [reflexivity|]. split; [reflexivity|].
  pose proof (Qfloor_le (b + (1 # 2))) as Hm1.
  pose proof (Qlt_floor (b + (1 # 2))) as Hm2.
  pose proof (Qfloor_le (v + (1 # 2))) as Ha1.
  pose proof (Qlt_floor (v + (1 # 2))) as Ha2.
  rewrite inject_Z_plus in Hm2, Ha2. change (inject_Z 1) with 1 in Hm2, Ha2.
  set (m := Qfloor (b + (1 # 2))) in *. set (a := Qfloor (v + (1 # 2))) in *.
  assert (Hup : (a < 12 * m + 7)%Z).
  { rewrite Zlt_Qlt, inject_Z_plus, inject_Z_mult.
    change (inject_Z 12) with 12. change (inject_Z 7) with 7. lra. }
  assert (Hdown : (12 * m - 7 < a)%Z).
  { rewrite Zlt_Qlt. unfold Z.sub. rewrite inject_Z_plus, inject_Z_mult.
    change (inject_Z 12) with 12. change (inject_Z (- (7))) with (- (7)). lra. }
  lia.
Qed.

Lemma annual_near_twelve_months_witness :
  magnitudeAtMost (2 ^ 48)
    (Binary64.basePriceOf fractionalBase (Binary64.lit 0)) = true
  /\ exists m a : Z,
       Binary64.estimatedMonthlyOf fractionalBase (Binary64.lit 0) = Binary64.lit m
       /\ Binary64.estimatedAnnualOf fractionalBase (Binary64.lit 0) = Binary64.lit a
       /\ (12 * m - 6 <= a <= 12 * m + 6)%Z.
Proof.
  split; [vm_compute; reflexivity|].
  exact (proj1 (annual_near_twelve_months fractionalBase (Binary64.lit 0)
                  ltac:(vm_compute; reflexivity))).
Defined.
